(** * simple-chat: the generation loop and the session driver

  A shallow embedding of [examples/simple-chat/simple-chat.cpp]: the
  [generate] lambda (tokenize, then decode / sample / classify / emit
  until a stop condition) and the turn loop of [main] (render the
  conversation, cut the prompt out of the render, generate, commit).

  The inference engine behind [llama.h] is not part of the program: it is
  an interface ([Engine]) whose operations the loop calls in the order the
  source calls them.  Every call and every write to stdout or stderr is
  recorded in a trace of [event]s, so that "decode is never invoked ..."
  or "the piece is not printed" are statements about that trace.

  Numbers are modelled in [Z], and the places where the source changes
  the type of a number are written out: [llama_n_ctx] read into an [int]
  (line 130), the negated return value of [llama_tokenize] (line 115),
  [(int)formatted.size()] (line 225).  The three counters of the loop stay
  within [0, 32], [0, 10] and [0, max n_predict 0] (lemma [loop_counters]),
  so no [int] arithmetic on them leaves the range of the type. *)

From Stdlib Require Import ZArith List String Ascii Bool Lia DecimalString.
Import ListNotations.
Open Scope string_scope.
Open Scope Z_scope.

(** ** Numbers *)

(** The range of an [int]. *)
Definition in_int (z : Z) : bool := (- 2 ^ 31 <=? z) && (z <? 2 ^ 31).

(** The [int] a number is converted to: the one congruent to it modulo
  2^32. *)
Definition to_int (z : Z) : Z := (z + 2 ^ 31) mod 2 ^ 32 - 2 ^ 31.

(** A [uint32_t] stored in an [int]: values from 2^31 on come out
  negative. *)
Definition int_of_uint32 (u : Z) : Z := if u <? 2 ^ 31 then u else u - 2 ^ 32.

(** [printf("%d", z)] *)
Definition decimal (z : Z) : string := NilZero.string_of_int (Z.to_int z).

(** ** Data *)

Definition llama_token := Z.

(** Text constants the source writes with escapes. *)
Definition ESC : string := String (ascii_of_nat 27) "".
Definition LF : string := String (ascii_of_nat 10) "".

(** The two multi-byte glyphs of line 173, as the bytes the source file
  holds: C3 B3, and 67 C3 B3. *)
Definition glyph_o_acute : string :=
String (ascii_of_nat 195) (String (ascii_of_nat 179) "").
Definition glyph_g_o_acute : string :=
String "g" glyph_o_acute.

(** Why the process was aborted ([GGML_ABORT], or an exception nobody
  catches; what the C++ runtime prints when it ends the process on such
  an exception is not part of the model). *)
Inductive abort_cause :=
| AbortVectorLength           (* std::vector of a negative size, lines 116
                                 and 226 *)
| AbortTokenize               (* line 118 *)
| AbortDecode (ret : Z)       (* line 140 *)
| AbortTokenToPiece           (* line 161 *)
| AbortStringRange.           (* std::string over a reversed range, line 235 *)

(** Which test ended the loop.  Line 153 is one short-circuit disjunction;
  the reason is its first disjunct that holds.  Line 186 is the second
  [break]. *)
Inductive stop_reason := STOP_EOG | STOP_MAXLEN | STOP_STALL | STOP_ANOMALY.

Definition NUL : ascii := ascii_of_nat 0.

(** [s.c_str()] read as a C string, by [printf("%s", ...)] and by
  [strdup]: the bytes before the first NUL. *)
Fixpoint c_str (s : string) : string :=
match s with
| EmptyString => EmptyString
| String a s' => if (a =? NUL)%char then EmptyString else String a (c_str s')
end.

Section Generate.

(** The engine: the functions of [llama.h] that [generate] calls, taken as
    parameters.  [ctx] is the whole mutable state behind the
    [llama_context] and the [llama_sampler] pointers; the vocabulary is
    fixed. *)
Context {ctx : Type}.

Class Engine := {
  llama_n_ctx : ctx -> Z;
  (* llama_memory_seq_pos_max (llama_get_memory ctx) 0 *)
  llama_memory_seq_pos_max : ctx -> Z;
  (* text, n_tokens_max, add_special, parse_special; the return value and
     the tokens written to the buffer *)
  llama_tokenize : string -> Z -> bool -> bool -> Z * list llama_token;
  (* the batch; the return value and the context afterwards *)
  llama_decode : ctx -> list llama_token -> Z * ctx;
  llama_sampler_sample : ctx -> llama_token * ctx;
  llama_vocab_is_eog : llama_token -> bool;
  (* the return value and the bytes written to buf *)
  llama_token_to_piece : llama_token -> Z * string;
  (* GGML_ABORT(...) on a line of this file: what ggml_abort writes to
     stderr for the formatted message, before it calls abort() *)
  ggml_abort : Z -> string -> string
}.

Context {E : Engine}.

Inductive event :=
| EvTokenize (text : string) (n_tokens_max : Z)
             (add_special parse_special : bool)
| EvDecode (c : ctx) (batch : list llama_token)
| EvSample (tok : llama_token)
| EvPiece (piece : string)        (* lines 189-191: the piece that is
                                     printed, by the EvStdout before it,
                                     and appended to the response *)
| EvStdout (s : string)           (* the bytes written to stdout *)
| EvStderr (s : string).          (* the bytes written to stderr *)

Inductive outcome :=
| Returned (response : string) (why : stop_reason) (c : ctx)
| Exited (status : Z)
| Aborted (cause : abort_cause)
| OutOfFuel.

(** The locals of [generate] that live across iterations. *)
Record gen_state := mkGen {
  batch : list llama_token;
  last_token_id : llama_token;
  same_token_count : Z;
  anomaly_count : Z;
  n_decoded : Z;
  response : string
}.

(** Lines 166-177. *)
Definition is_suspicious_char (ch : ascii) : bool :=
  (ch =? "(")%char || (ch =? ")")%char || (ch =? "@")%char.

Definition classify (piece : string) (count : Z) : Z :=
  if (String.length piece =? 1)%nat then
    match piece with
    | String ch _ => if is_suspicious_char ch then count + 1 else 0
    | EmptyString => 0
    end
  else if (piece =? glyph_o_acute)%string || (piece =? glyph_g_o_acute)%string then
    count + 1
  else 0.

(** Lines 181-185. *)
Definition quality_warning : list event :=
  [ EvStdout (LF ++ LF ++ "🚨 [模型质量警告] 🚨" ++ LF);
    EvStdout ("检测到模型输出异常字符。这通常表明:" ++ LF);
    EvStdout ("• 模型文件可能损坏或质量不佳" ++ LF);
    EvStdout ("• 建议尝试其他GGUF模型文件" ++ LF);
    EvStdout ("• 或者检查模型是否与llama.cpp兼容" ++ LF ++ LF) ].

(** Lines 133-134. *)
Definition overflow_notice : list event :=
  [ EvStdout (ESC ++ "[0m" ++ LF); EvStderr ("context size exceeded" ++ LF) ].

(** [GGML_ABORT(...)] on [line], with its message formatted. *)
Definition abort_message (line : Z) (message : string) : event :=
  EvStderr (ggml_abort line message).

(** Line 163: [std::string piece(buf, n)]. *)
Definition piece_of (n : Z) (buf : string) : string :=
  substring 0 (Z.to_nat n) buf.

Definition stop_check (n_predict : Z) (tok : llama_token)
           (n_dec same : Z) : option stop_reason :=
  if llama_vocab_is_eog tok then Some STOP_EOG
  else if n_dec >=? n_predict then Some STOP_MAXLEN
  else if same >=? 32 then Some STOP_STALL
  else None.

Inductive step :=
| Next (c : ctx) (st : gen_state)
| Stop (o : outcome).

(** Lines 130-132: is there no room in the context for the batch?
    [llama_n_ctx] returns a [uint32_t] and line 130 stores it in an [int].
    The sum of line 132 is an addition of [int]s, which the language leaves
    undefined when the result is outside the range of the type; for such a
    sum the model compares the numbers themselves. *)
Definition context_full (c : ctx) (b : list llama_token) : bool :=
  let n_ctx := int_of_uint32 (llama_n_ctx c) in
  let n_ctx_used := llama_memory_seq_pos_max c + 1 in
  let sum := n_ctx_used + Z.of_nat (List.length b) in
  if in_int sum then sum >? n_ctx else sum >? llama_n_ctx c.

(** One pass through the body of [while (true)], lines 129-195. *)
Definition iteration (n_predict : Z) (c : ctx) (st : gen_state)
  : list event * step :=
  if context_full c (batch st) then
    (overflow_notice, Stop (Exited 0))
  else
    let '(ret, c1) := llama_decode c (batch st) in
    if negb (ret =? 0) then
      ([EvDecode c (batch st);
        abort_message 140 ("failed to decode, ret = " ++ decimal ret ++ LF)],
       Stop (Aborted (AbortDecode ret)))
    else
      let '(new_token_id, c2) := llama_sampler_sample c1 in
      let same :=
        if new_token_id =? last_token_id st
        then same_token_count st + 1 else 1 in
      match stop_check n_predict new_token_id (n_decoded st) same with
      | Some why =>
          ([EvDecode c (batch st); EvSample new_token_id],
           Stop (Returned (response st) why c2))
      | None =>
          let '(n, buf) := llama_token_to_piece new_token_id in
          if n <? 0 then
            ([EvDecode c (batch st); EvSample new_token_id;
              abort_message 161 ("failed to convert token to piece" ++ LF)],
             Stop (Aborted AbortTokenToPiece))
          else
            let piece := piece_of n buf in
            let anomaly := classify piece (anomaly_count st) in
            if anomaly >=? 10 then
              (EvDecode c (batch st) :: EvSample new_token_id
                 :: quality_warning,
               Stop (Returned (response st) STOP_ANOMALY c2))
            else
              (* lines 189-191: printf("%s", piece.c_str()), then
                 response += piece *)
              ([EvDecode c (batch st); EvSample new_token_id;
                EvStdout (c_str piece); EvPiece piece],
               Next c2 {| batch := [new_token_id];
                          last_token_id := new_token_id;
                          same_token_count := same;
                          anomaly_count := anomaly;
                          n_decoded := n_decoded st + 1;
                          response := response st ++ piece |})
      end.

(** [while (true)]: the fuel bounds the number of passes. *)
Fixpoint loop (fuel : nat) (n_predict : Z) (c : ctx) (st : gen_state)
  : list event * outcome :=
  match fuel with
  | O => ([], OutOfFuel)
  | S fuel' =>
      match iteration n_predict c st with
      | (evs, Stop o) => (evs, o)
      | (evs, Next c' st') =>
          let '(evs', o) := loop fuel' n_predict c' st' in
          ((evs ++ evs')%list, o)
      end
  end.

(** Lines 123-127. *)
Definition init_state (prompt_tokens : list llama_token) : gen_state :=
  {| batch := prompt_tokens;
     last_token_id := -1;
     same_token_count := 0;
     anomaly_count := 0;
     n_decoded := 0;
     response := "" |}.

(** Lines 116-117: a vector of [n] zeroes, overwritten from the front by
    what the tokenizer wrote. *)
Definition fill_vector (n : Z) (written : list llama_token)
  : list llama_token :=
  firstn (Z.to_nat n) (written ++ repeat 0 (Z.to_nat n))%list.

(** The [generate] lambda, lines 109-199.  The loop makes at most
    [max n_predict 0 + 1] passes (lemma [generate_terminates]). *)
Definition generate (n_predict : Z) (c : ctx) (prompt : string)
  : list event * outcome :=
  let is_first := llama_memory_seq_pos_max c =? -1 in
  (* the negation is an int: that of INT_MIN is INT_MIN again *)
  let n_prompt_tokens :=
    to_int (- fst (llama_tokenize prompt 0 is_first true)) in
  let ev0 := EvTokenize prompt 0 is_first true in
  if n_prompt_tokens <? 0 then ([ev0], Aborted AbortVectorLength)
  else
    let '(ret, written) :=
      llama_tokenize prompt n_prompt_tokens is_first true in
    let ev1 := EvTokenize prompt n_prompt_tokens is_first true in
    if ret <? 0 then
      ([ev0; ev1; abort_message 118 ("failed to tokenize the prompt" ++ LF)],
       Aborted AbortTokenize)
    else
      let prompt_tokens := fill_vector n_prompt_tokens written in
      let '(evs, o) :=
        loop (S (Z.to_nat n_predict)) n_predict c
             (init_state prompt_tokens) in
      (ev0 :: ev1 :: evs, o).

(** ** Reading a trace *)

Fixpoint sampled (tr : list event) : list llama_token :=
  match tr with
  | [] => []
  | EvSample t :: tr' => t :: sampled tr'
  | _ :: tr' => sampled tr'
  end.

(** The pieces of the passes that reached lines 189-191: each was printed,
    up to its first NUL, and appended to the response. *)
Fixpoint emitted (tr : list event) : list string :=
  match tr with
  | [] => []
  | EvPiece p :: tr' => p :: emitted tr'
  | _ :: tr' => emitted tr'
  end.

(** The bytes a trace writes to stdout, and to stderr. *)
Fixpoint stdout_of (tr : list event) : string :=
  match tr with
  | [] => ""
  | EvStdout s :: tr' => s ++ stdout_of tr'
  | _ :: tr' => stdout_of tr'
  end.

Fixpoint stderr_of (tr : list event) : list string :=
  match tr with
  | [] => []
  | EvStderr s :: tr' => s :: stderr_of tr'
  | _ :: tr' => stderr_of tr'
  end.

Fixpoint decoded (tr : list event) : list (ctx * list llama_token) :=
  match tr with
  | [] => []
  | EvDecode c b :: tr' => (c, b) :: decoded tr'
  | _ :: tr' => decoded tr'
  end.

Fixpoint tokenized (tr : list event) : list (string * Z * bool * bool) :=
  match tr with
  | [] => []
  | EvTokenize s n a p :: tr' => (s, n, a, p) :: tokenized tr'
  | _ :: tr' => tokenized tr'
  end.

Definition concat_pieces (ps : list string) : string :=
  fold_right String.append "" ps.

(** The display text of a token, when the detokenizer gives one. *)
Definition display (tok : llama_token) : string :=
  piece_of (fst (llama_token_to_piece tok)) (snd (llama_token_to_piece tok)).

(** [n_ctx_used + batch.n_tokens <= n_ctx] for the capacity the engine
    reports: the batch has room in the context. *)
Definition fits (c : ctx) (b : list llama_token) : Prop :=
  llama_memory_seq_pos_max c + 1 + Z.of_nat (List.length b) <= llama_n_ctx c.

End Generate.

Arguments Engine ctx : clear implicits.
Arguments event ctx : clear implicits.
Arguments outcome ctx : clear implicits.
Arguments step ctx : clear implicits.

(** ** The session driver, lines 207-259 *)

Record llama_chat_message := mkMsg { role : string; content : string }.

(** How the process ends: [return] from [main] or [exit], or an abort. *)
Inductive process_end :=
| ProcExit (status : Z)
| ProcAbort (cause : abort_cause)
| ProcOutOfFuel.

Section Chat.

Context {ctx : Type} {E : Engine ctx}.

(** Modelled from the spec: the chat template renderer
    ([llama_chat_apply_template] and the template of the model), which
    [llama.h] declares and this file only calls.  Section 6: "given the
    full ordered turn list and a flag "append an assistant-generation
    prompt suffix", produce the fully rendered text and its length; must
    support a two-pass call (query required length, then render into a
    caller-sized buffer)"; section 4.1: rendering may report "a negative
    required length".  [None] is that negative report. *)
Class ChatTemplate := { chat_render : list llama_chat_message -> bool -> option string }.

Context {T : ChatTemplate}.

(** Modelled from the spec: what the renderer leaves in a caller-sized
    buffer, the render cut to the size of the buffer and padded with NUL
    (the two-pass call of section 6). *)
Definition render_into (buf : list ascii) (text : string) : list ascii :=
  firstn (List.length buf)
         (list_ascii_of_string text ++ repeat NUL (List.length buf))%list.

(** Modelled from the spec: the return value and the buffer afterwards;
    the empty buffer stands for the call with [nullptr, 0] of line 244,
    which writes nothing. *)
Definition llama_chat_apply_template
           (msgs : list llama_chat_message) (add_ass : bool)
           (buf : list ascii) : Z * list ascii :=
  match chat_render msgs add_ass with
  | None => (-1, buf)
  | Some text => (Z.of_nat (String.length text), render_into buf text)
  end.

(** [formatted.resize(new_len)] *)
Definition resize (buf : list ascii) (n : Z) : list ascii :=
  firstn (Z.to_nat n) (buf ++ repeat NUL (Z.to_nat n))%list.

(** [std::string(formatted.begin() + from, formatted.begin() + to)] *)
Definition slice (buf : list ascii) (from to : Z) : string :=
  string_of_list_ascii
    (firstn (Z.to_nat (to - from)) (skipn (Z.to_nat from) buf)).

(** The locals of [main] that live across turns. *)
Record session := mkSession {
  messages : list llama_chat_message;
  formatted : list ascii;
  prev_len : Z;
  engine : ctx
}.

Definition template_failure : list (event ctx) :=
  [ EvStderr ("failed to apply the chat template" ++ LF) ].

(** Lines 223-228: push the user message and render, a second time when
    the length returned is above the size of the buffer read as an [int].
    The result is the history, and the length and the buffer to go on
    with; or no buffer, when the length is negative and still above that
    size: [formatted.resize] is then asked for that length converted to
    [size_t], and throws [std::length_error], which nobody catches. *)
Definition render_user (s : session) (user : string)
  : list llama_chat_message * option (Z * list ascii) :=
  let msgs := (messages s ++ [mkMsg "user" (c_str user)])%list in
  let '(new_len, fmt) :=
    llama_chat_apply_template msgs true (formatted s) in
  if new_len >? to_int (Z.of_nat (List.length (formatted s))) then
    if new_len <? 0 then (msgs, None)
    else (msgs, Some (llama_chat_apply_template msgs true (resize fmt new_len)))
  else (msgs, Some (new_len, fmt)).

(** One pass through the body of the turn loop for a non-empty line,
    lines 220-248. *)
Definition turn (n_predict : Z) (s : session) (user : string)
  : list (event ctx) * (session + process_end) :=
  match render_user s user with
  | (msgs, None) => ([], inr (ProcAbort AbortVectorLength))
  | (msgs, Some (new_len, fmt)) =>
      if new_len <? 0 then (template_failure, inr (ProcExit 1))
      else if new_len <? prev_len s then
        (* a reversed iterator range: undefined, in practice length_error *)
        ([], inr (ProcAbort AbortStringRange))
      else
        let prompt := slice fmt (prev_len s) new_len in
        let '(tr, o) := generate n_predict (engine s) prompt in
        let tr1 := (EvStdout (ESC ++ "[33m") :: tr)%list in
        match o with
        | Returned response _ c' =>
            let msgs' := (msgs ++ [mkMsg "assistant" (c_str response)])%list in
            let '(len, _) := llama_chat_apply_template msgs' false [] in
            let tr2 := (tr1 ++ [EvStdout (LF ++ ESC ++ "[0m")])%list in
            if len <? 0 then ((tr2 ++ template_failure)%list, inr (ProcExit 1))
            else (tr2, inl (mkSession msgs' fmt len c'))
        | Exited status => (tr1, inr (ProcExit status))
        | Aborted cause => (tr1, inr (ProcAbort cause))
        | OutOfFuel => (tr1, inr ProcOutOfFuel)
        end
  end.

(** The turn loop over the lines of standard input; [std::getline] at the
    end of the input leaves [user] empty. *)
Fixpoint chat_loop (n_predict : Z) (stdin : list string) (s : session)
  : list (event ctx) * process_end :=
  let ask := EvStdout (ESC ++ "[32m> " ++ ESC ++ "[0m") in
  match stdin with
  | [] => ([ask], ProcExit 0)
  | user :: rest =>
      if (user =? "")%string then ([ask], ProcExit 0)
      else
        match turn n_predict s user with
        | (tr, inl s') =>
            let '(tr', e) := chat_loop n_predict rest s' in
            ((ask :: tr ++ tr')%list, e)
        | (tr, inr e) => ((ask :: tr)%list, e)
        end
  end.

(** Lines 207-209. *)
Definition init_session (c : ctx) : session :=
  {| messages := [];
     formatted := repeat NUL (Z.to_nat (llama_n_ctx c));
     prev_len := 0;
     engine := c |}.

Definition chat (n_predict : Z) (c : ctx) (stdin : list string)
  : list (event ctx) * process_end :=
  chat_loop n_predict stdin (init_session c).

(** The sessions a conversation goes through: the session at the top of
    the turn loop after each line of [users]. *)
Inductive reaches (n_predict : Z) : session -> session -> Prop :=
| reaches_refl s : reaches n_predict s s
| reaches_turn s user tr s' s'' :
    user <> "" ->
    turn n_predict s user = (tr, inl s') ->
    reaches n_predict s' s'' ->
    reaches n_predict s s''.

(** Section 4.1 of the specification: "the template is assumed
append-only: re-rendering the conversation after adding one turn never
changes any previously rendered bytes, only appends new ones".  The program
does not check it. *)
Definition append_only : Prop :=
  forall msgs extra add_ass base text,
    chat_render msgs false = Some base ->
    chat_render (msgs ++ extra)%list add_ass = Some text ->
    exists suffix, text = base ++ suffix.

(** At the top of the turn loop [prev_len] is 0 or the length of the
render, without suffix, of the messages so far. *)
Definition cursor_ok (s : session) : Prop :=
  prev_len s = 0 \/
  exists base,
    chat_render (messages s) false = Some base /\
    prev_len s = Z.of_nat (String.length base).

End Chat.

Arguments ChatTemplate : clear implicits.
Arguments session ctx : clear implicits.

(** ** A scripted engine

  A small engine to run the program on: the sampler reads the next token
  off a script, the vocabulary is byte-level. Tokens 0..255 are the bytes,
  256 the beginning-of-sequence marker, 257 the end-of-generation token,
  258 a token with an empty display text, 259 the glyph C3 B3. *)
Module Scripted.

Record sctx := mkS {
  capacity : Z;
  pos_max : Z;
  script : list llama_token
}.

Definition bytes_of (text : string) : list llama_token :=
  map (fun a => Z.of_nat (nat_of_ascii a)) (list_ascii_of_string text).

Definition tokenize (text : string) (n_tokens_max : Z)
           (add_special parse_special : bool) : Z * list llama_token :=
  let toks := ((if add_special then [256] else []) ++ bytes_of text)%list in
  let n := Z.of_nat (List.length toks) in
  if n_tokens_max <? n then (- n, []) else (n, toks).

Definition decode (c : sctx) (b : list llama_token) : Z * sctx :=
  match b with
  | [] => (-1, c)
  | _ => (0, mkS (capacity c) (pos_max c + Z.of_nat (List.length b))
                 (script c))
  end.

Definition sample (c : sctx) : llama_token * sctx :=
  match script c with
  | [] => (257, c)
  | t :: rest => (t, mkS (capacity c) (pos_max c) rest)
  end.

Definition token_to_piece (t : llama_token) : Z * string :=
  if (0 <=? t) && (t <? 256) then
    (1, String (ascii_of_nat (Z.to_nat t)) "")
  else if t =? 258 then (0, "")
  else if t =? 259 then (2, glyph_o_acute)
  else if (t =? 256) || (t =? 257) then (3, "<s>")
  else (-1, "").

(** What [ggml_abort] writes: the place, the message and a newline. *)
Definition abort_text (line : Z) (message : string) : string :=
  "simple-chat.cpp:" ++ decimal line ++ ": " ++ message ++ LF.

#[global] Instance scripted_engine : Engine sctx := {|
  llama_n_ctx := capacity;
  llama_memory_seq_pos_max := pos_max;
  llama_tokenize := tokenize;
  llama_decode := decode;
  llama_sampler_sample := sample;
  llama_vocab_is_eog := fun t => t =? 257;
  llama_token_to_piece := token_to_piece;
  ggml_abort := abort_text
|}.

(** A template that writes each message as "<role>content;" and the
generation suffix as "<assistant>"; it refuses a message with a "#" in
its content. *)
Definition render_message (m : llama_chat_message) : string :=
  "<" ++ role m ++ ">" ++ content m ++ ";".

Definition refused (m : llama_chat_message) : bool :=
  existsb (fun a => (a =? "#")%char) (list_ascii_of_string (content m)).

Definition render (msgs : list llama_chat_message) (add_ass : bool)
  : option string :=
  if existsb refused msgs then None
  else Some (concat_pieces (map render_message msgs)
             ++ (if add_ass then "<assistant>" else "")).

#[global] Instance scripted_template : ChatTemplate := {| chat_render := render |}.

(** A fresh context of the given capacity, and tokens by their byte. *)
Definition fresh (cap : Z) (toks : list llama_token) : sctx :=
  mkS cap (-1) toks.

Definition tok (ch : ascii) : llama_token := Z.of_nat (nat_of_ascii ch).

(** The response and the reason of a call that returned. *)
Definition returned (o : outcome sctx) : option (string * stop_reason) :=
  match o with
  | Returned resp why _ => Some (resp, why)
  | _ => None
  end.

(** Inputs the statements below are run on. *)
Definition session_start : session sctx :=
  init_session (fresh 100 [tok "a"; tok "b"; 257; tok "c"; tok "d"]).

Definition session_after_hi : session sctx :=
  match snd (turn 3 session_start "hi") with
  | inl s => s
  | inr _ => session_start
  end.

Definition letters : sctx := fresh 100 (map tok ["a"; "b"; "c"; "d"]%char).

(** A template that is not append-only: what it renders depends on the
number of messages alone. *)
Definition forgetful_render (msgs : list llama_chat_message) (add_ass : bool)
  : option string :=
  match List.length msgs with
  | 2%nat => Some "12345"
  | 3%nat => Some "1234567"
  | 4%nat => Some "123"
  | _ => Some ""
  end.

Definition forgetful_template : ChatTemplate :=
  {| chat_render := forgetful_render |}.

(** A session with that template: the model answers "a" to the first line
and "b" to the second. *)
Definition forgetful_start : session sctx :=
  init_session (fresh 100 [tok "a"; 257; tok "b"; 257]).

Definition forgetful_after_hi : session sctx :=
  match snd (turn (T := forgetful_template) 3 forgetful_start "hi") with
  | inl s => s
  | inr _ => forgetful_start
  end.

Definition forgetful_after_yo : session sctx :=
  match snd (turn (T := forgetful_template) 3 forgetful_after_hi "yo") with
  | inl s => s
  | inr _ => forgetful_start
  end.

(** The session [main] starts with on a context of 2^31 positions: the
buffer [formatted] has 2^31 bytes. *)
Definition large_start : session sctx :=
  init_session (fresh (2 ^ 31) (bytes_of "ab")).

Definition parens (k : nat) : sctx := fresh 100 (repeat (tok "(") k).

Definition same_token (k : nat) : sctx := fresh 100 (repeat (tok "a") k).

End Scripted.

(** ** Vocabulary of the statements *)

Section Vocabulary.

Context {ctx : Type} {E : Engine ctx}.

(** Lines 145-150, and the state line 191-195 leave behind. *)
Definition next_same (st : gen_state) (tok : llama_token) : Z :=
  if tok =? last_token_id st then same_token_count st + 1 else 1.

Definition advance (st : gen_state) (tok : llama_token) : gen_state :=
  {| batch := [tok];
     last_token_id := tok;
     same_token_count := next_same st tok;
     anomaly_count := classify (display tok) (anomaly_count st);
     n_decoded := n_decoded st + 1;
     response := response st ++ display tok |}.

(** The six ways through the body of the loop. *)
Inductive iteration_view (n_predict : Z) (c : ctx) (st : gen_state)
  : list (event ctx) * step ctx -> Prop :=
| IterOverflow :
    context_full c (batch st) = true ->
    iteration_view n_predict c st (overflow_notice, Stop (Exited 0))
| IterDecodeFail ret c1 :
    context_full c (batch st) = false ->
    llama_decode c (batch st) = (ret, c1) -> ret <> 0 ->
    iteration_view n_predict c st
      ([EvDecode c (batch st);
        abort_message 140 ("failed to decode, ret = " ++ decimal ret ++ LF)],
       Stop (Aborted (AbortDecode ret)))
| IterStop c1 tok c2 why :
    context_full c (batch st) = false ->
    llama_decode c (batch st) = (0, c1) ->
    llama_sampler_sample c1 = (tok, c2) ->
    stop_check n_predict tok (n_decoded st) (next_same st tok) = Some why ->
    iteration_view n_predict c st
      ([EvDecode c (batch st); EvSample tok],
       Stop (Returned (response st) why c2))
| IterPieceFail c1 tok c2 :
    context_full c (batch st) = false ->
    llama_decode c (batch st) = (0, c1) ->
    llama_sampler_sample c1 = (tok, c2) ->
    stop_check n_predict tok (n_decoded st) (next_same st tok) = None ->
    fst (llama_token_to_piece tok) < 0 ->
    iteration_view n_predict c st
      ([EvDecode c (batch st); EvSample tok;
        abort_message 161 ("failed to convert token to piece" ++ LF)],
       Stop (Aborted AbortTokenToPiece))
| IterAnomaly c1 tok c2 :
    context_full c (batch st) = false ->
    llama_decode c (batch st) = (0, c1) ->
    llama_sampler_sample c1 = (tok, c2) ->
    stop_check n_predict tok (n_decoded st) (next_same st tok) = None ->
    0 <= fst (llama_token_to_piece tok) ->
    10 <= classify (display tok) (anomaly_count st) ->
    iteration_view n_predict c st
      (EvDecode c (batch st) :: EvSample tok :: quality_warning,
       Stop (Returned (response st) STOP_ANOMALY c2))
| IterEmit c1 tok c2 :
    context_full c (batch st) = false ->
    llama_decode c (batch st) = (0, c1) ->
    llama_sampler_sample c1 = (tok, c2) ->
    stop_check n_predict tok (n_decoded st) (next_same st tok) = None ->
    0 <= fst (llama_token_to_piece tok) ->
    classify (display tok) (anomaly_count st) < 10 ->
    iteration_view n_predict c st
      ([EvDecode c (batch st); EvSample tok;
        EvStdout (c_str (display tok)); EvPiece (display tok)],
       Next c2 (advance st tok)).

(** The ranges the counters of the loop stay in. *)
Definition counters_ok (n_predict : Z) (st : gen_state) : Prop :=
  0 <= same_token_count st < 32 /\
  0 <= anomaly_count st < 10 /\
  0 <= n_decoded st <= Z.max n_predict 0.

(** The stall tracking of lines 145-150 as a function of the tokens sampled
so far: the last token and the length the loop has counted. *)
Definition stall_step (s : llama_token * Z) (tok : llama_token)
  : llama_token * Z :=
  if tok =? fst s then (fst s, snd s + 1) else (tok, 1).

Definition stall_of (toks : list llama_token) : llama_token * Z :=
  fold_left stall_step toks (-1, 0).

(** The anomaly counter of lines 166-177 after a stream of pieces. *)
Definition anomaly_after (pieces : list string) : Z :=
  fold_left (fun count piece => classify piece count) pieces 0.

(** A piece that makes the anomaly counter go up. *)
Definition suspicious (piece : string) : bool :=
  match piece with
  | String ch EmptyString => is_suspicious_char ch
  | _ => (piece =? glyph_o_acute)%string || (piece =? glyph_g_o_acute)%string
  end.

(** [h] is the list of the tokens emitted so far in this call, and the
locals are what the loop computes from them. *)
Definition consistent (h : list llama_token) (st : gen_state) : Prop :=
  last_token_id st = fst (stall_of h) /\
  same_token_count st = snd (stall_of h) /\
  anomaly_count st = anomaly_after (map display h) /\
  n_decoded st = Z.of_nat (List.length h) /\
  response st = concat_pieces (map display h).

(** Token [t], sampled after the tokens [h] were emitted, is emitted too:
no test of lines 153, 160 and 180 holds. *)
Definition passes (n_predict : Z) (h : list llama_token) (t : llama_token)
  : Prop :=
  stop_check n_predict t (Z.of_nat (List.length h))
             (snd (stall_of (h ++ [t])%list)) = None /\
  0 <= fst (llama_token_to_piece t) /\
  anomaly_after (map display (h ++ [t])%list) < 10.

Definition all_pass (n_predict : Z) (h front : list llama_token) : Prop :=
  forall p t q, front = (p ++ t :: q)%list -> passes n_predict (h ++ p)%list t.

(** Token [t], sampled after the tokens [h] were emitted, ends the loop
for the reason [why]. *)
Definition final (n_predict : Z) (h : list llama_token) (t : llama_token)
           (why : stop_reason) : Prop :=
  stop_check n_predict t (Z.of_nat (List.length h))
             (snd (stall_of (h ++ [t])%list)) = Some why \/
  (stop_check n_predict t (Z.of_nat (List.length h))
              (snd (stall_of (h ++ [t])%list)) = None /\
   0 <= fst (llama_token_to_piece t) /\
   10 <= anomaly_after (map display (h ++ [t])%list) /\
   why = STOP_ANOMALY).

(** The vector lines 115-117 build for the first batch. *)
Definition prompt_tokens (c : ctx) (prompt : string) : list llama_token :=
  let is_first := llama_memory_seq_pos_max c =? -1 in
  let n := to_int (- fst (llama_tokenize prompt 0 is_first true)) in
  fill_vector n (snd (llama_tokenize prompt n is_first true)).


(** What a run of the loop did, told by the tokens it emitted: the pieces
printed are the display texts of [front], every token of [front] passed the
tests, and when the loop returns one more token [t] was sampled and ended
it. *)
Definition run_summary (n_predict : Z) (h : list llama_token)
           (tr : list (event ctx)) (o : outcome ctx)
           (front : list llama_token) : Prop :=
  emitted tr = map display front /\
  all_pass n_predict h front /\
  match o with
  | Returned resp why _ =>
      exists t, sampled tr = (front ++ [t])%list /\
                resp = concat_pieces (map display (h ++ front)%list) /\
                final n_predict (h ++ front)%list t why
  | OutOfFuel => sampled tr = front
  | _ =>
      sampled tr = front \/
      exists t, sampled tr = (front ++ [t])%list /\
                stop_check n_predict t (Z.of_nat (List.length (h ++ front)%list))
                           (snd (stall_of ((h ++ front) ++ [t])%list)) = None
  end.

(** What a call writes to stdout after the pieces: the diagnostic when it
stops on the anomaly counter, the reset of the colour when the context is
full. *)
Definition closing_output (o : outcome ctx) : string :=
  match o with
  | Returned _ STOP_ANOMALY _ => stdout_of (@quality_warning ctx)
  | Exited _ => stdout_of (@overflow_notice ctx)
  | _ => ""
  end.

(** What a call has written to stderr, by the way it ends. *)
Definition last_error (o : outcome ctx) : list string :=
  match o with
  | Exited _ => [("context size exceeded" ++ LF)%string]
  | Aborted AbortTokenize =>
      [ggml_abort 118 ("failed to tokenize the prompt" ++ LF)%string]
  | Aborted (AbortDecode ret) =>
      [ggml_abort 140 ("failed to decode, ret = " ++ decimal ret ++ LF)%string]
  | Aborted AbortTokenToPiece =>
      [ggml_abort 161 ("failed to convert token to piece" ++ LF)%string]
  | _ => []
  end.

(** The context a pass leaves for the next one: that of the decode, then
that of the sample. *)
Definition after_pass (c : ctx) (b : list llama_token) : ctx :=
  snd (llama_sampler_sample (snd (llama_decode c b))).

(** Each decode of [ds] is on the context the pass before it left,
beginning with [c]. *)
Fixpoint threaded (c : ctx) (ds : list (ctx * list llama_token)) : Prop :=
  match ds with
  | [] => True
  | (c1, b1) :: rest => c1 = c /\ threaded (after_pass c1 b1) rest
  end.

(** The context after the passes that made the decodes [ds]. *)
Definition after_passes (c : ctx) (ds : list (ctx * list llama_token)) : ctx :=
  fold_left (fun c0 cb => after_pass (fst cb) (snd cb)) ds c.

End Vocabulary.

(** ** The command line, lines 8-64 *)

Module CommandLine.

(** The locals [model_path], [ngl], [n_ctx] and [n_predict] of [main]. *)
Record options := mkOptions {
  model_path : string;
  ngl : Z;
  n_ctx : Z;
  n_predict : Z
}.

(** [std::stoi]: the value, or the exception it throws with its
[what()]. *)
Inductive stoi_result :=
| StoiValue (v : Z)
| StoiThrow (what : string).

Section Parse.

Context {ctx : Type}.

(** [std::stoi] is the library's; the parser is stated for any. *)
Variable stoi : string -> stoi_result.

(** Lines 8-12. *)
Definition print_usage (argv0 : string) : list (event ctx) :=
  [ EvStdout (LF ++ "example usage:" ++ LF);
    EvStdout (LF ++ "    " ++ argv0
              ++ " -m model.gguf [-c context_size] [-ngl n_gpu_layers] [-n n_predict]"
              ++ LF);
    EvStdout LF ].

(** Lines 55-58: the [catch] of a pass of the loop. *)
Definition stoi_failure (argv0 what : string) : list (event ctx) :=
  (EvStderr ("error: " ++ what ++ LF) :: print_usage argv0)%list.

(** Lines 15-18. *)
Definition defaults : options := mkOptions "" 99 2048 256.

(** The [for] loop of lines 21-60 over [argv[1 ..]]: the options so far,
and either the options at the end or the status [main] returns. *)
Fixpoint parse_loop (argv0 : string) (args : list string) (o : options)
  : list (event ctx) * (options + Z) :=
  match args with
  | [] => ([], inl o)
  | a :: rest =>
      if (a =? "-m")%string then
        match rest with
        | v :: rest' =>
            parse_loop argv0 rest' (mkOptions v (ngl o) (n_ctx o) (n_predict o))
        | [] => (print_usage argv0, inr 1)
        end
      else if (a =? "-c")%string then
        match rest with
        | v :: rest' =>
            match stoi v with
            | StoiValue k =>
                parse_loop argv0 rest'
                           (mkOptions (model_path o) (ngl o) k (n_predict o))
            | StoiThrow what => (stoi_failure argv0 what, inr 1)
            end
        | [] => (print_usage argv0, inr 1)
        end
      else if (a =? "-ngl")%string then
        match rest with
        | v :: rest' =>
            match stoi v with
            | StoiValue k =>
                parse_loop argv0 rest'
                           (mkOptions (model_path o) k (n_ctx o) (n_predict o))
            | StoiThrow what => (stoi_failure argv0 what, inr 1)
            end
        | [] => (print_usage argv0, inr 1)
        end
      else if (a =? "-n")%string then
        match rest with
        | v :: rest' =>
            match stoi v with
            | StoiValue k =>
                parse_loop argv0 rest'
                           (mkOptions (model_path o) (ngl o) (n_ctx o) k)
            | StoiThrow what => (stoi_failure argv0 what, inr 1)
            end
        | [] => (print_usage argv0, inr 1)
        end
      else (print_usage argv0, inr 1)
  end.

(** Lines 15-64: the loop from the defaults, then the test that a model
path was given. *)
Definition parse_args (argv0 : string) (args : list string)
  : list (event ctx) * (options + Z) :=
  match parse_loop argv0 args defaults with
  | (tr, inl o) =>
      if (model_path o =? "")%string
      then ((tr ++ print_usage argv0)%list, inr 1)
      else (tr, inl o)
  | (tr, inr status) => (tr, inr status)
  end.

(** What one accepted pair [flag value] does to the options. *)
Inductive option_step (o : options) : string -> string -> options -> Prop :=
| StepModel v :
    option_step o "-m" v (mkOptions v (ngl o) (n_ctx o) (n_predict o))
| StepCtx v k :
    stoi v = StoiValue k ->
    option_step o "-c" v (mkOptions (model_path o) (ngl o) k (n_predict o))
| StepNgl v k :
    stoi v = StoiValue k ->
    option_step o "-ngl" v (mkOptions (model_path o) k (n_ctx o) (n_predict o))
| StepPredict v k :
    stoi v = StoiValue k ->
    option_step o "-n" v (mkOptions (model_path o) (ngl o) (n_ctx o) k).

(** What a rejected command line prints: the usage, after the message of
the exception when [std::stoi] threw. *)
Definition rejected (argv0 : string) (tr : list (event ctx)) : Prop :=
  tr = print_usage argv0 \/ exists what, tr = stoi_failure argv0 what.

End Parse.

End CommandLine.

(** ** The whole of [main], lines 14-259 *)

Section Main.

Context {ctx model : Type}.

(** What [main] asks of the library before the first turn, taken as
parameters: [std::stoi]; loading the model of a path with a number of GPU
layers (lines 77-84, [None] is the null pointer); creating the context of
a model for [n_ctx] and [n_batch], with the sampler chain of lines 100-106
attached ([None] when [llama_init_from_model] returns null); the
vocabulary and the chat template that come with the model (lines 86 and
220). *)
Class Host := {
  stoi : string -> CommandLine.stoi_result;
  llama_model_load_from_file : string -> Z -> option model;
  llama_init_from_model : model -> Z -> Z -> option ctx;
  model_engine : model -> Engine ctx;
  model_template : model -> ChatTemplate
}.

Context {H : Host}.

(** [ctx_params.n_ctx = n_ctx]: an [int] stored in a [uint32_t]. *)
Definition to_uint32 (n : Z) : Z := n mod 2 ^ 32.

(** Lines 201-205. *)
Definition banner (o : CommandLine.options) : list (event ctx) :=
  [ EvStdout (LF ++ "=== llama.cpp 简单聊天示例 ===" ++ LF);
    EvStdout ("Metal GPU 加速: "
              ++ (if CommandLine.ngl o >? 0 then "启用" else "禁用") ++ LF);
    EvStdout ("模型: " ++ c_str (CommandLine.model_path o) ++ LF);
    EvStdout ("输入您的消息，按回车发送。空行退出。" ++ LF);
    EvStdout ("注意: 如果模型输出异常，程序会自动检测并提示。" ++ LF ++ LF) ].

Definition load_failure : list (event ctx) :=
  [ EvStderr ("main: error: unable to load model" ++ LF) ].

Definition context_failure : list (event ctx) :=
  [ EvStderr ("main: error: failed to create the llama_context" ++ LF) ].

(** [main] on [argv[0]], [argv[1 ..]] and the lines of standard input. *)
Definition main (argv0 : string) (args stdin : list string)
  : list (event ctx) * process_end :=
  match CommandLine.parse_args stoi argv0 args with
  | (tr, inr status) => (tr, ProcExit status)
  | (tr, inl o) =>
      match llama_model_load_from_file (c_str (CommandLine.model_path o))
                                       (CommandLine.ngl o) with
      | None => ((tr ++ load_failure)%list, ProcExit 1)
      | Some m =>
          let n := to_uint32 (CommandLine.n_ctx o) in
          match llama_init_from_model m n n with
          | None => ((tr ++ context_failure)%list, ProcExit 1)
          | Some c =>
              let '(tr', e) :=
                chat (E := model_engine m) (T := model_template m)
                     (CommandLine.n_predict o) c stdin in
              ((tr ++ banner o ++ tr')%list, e)
          end
      end
  end.

(** The command line is accepted, the model loads and the context is
created. *)
Definition started (argv0 : string) (args : list string) : Prop :=
  exists o m c,
    CommandLine.parse_args (ctx := ctx) stoi argv0 args = ([], inl o) /\
    llama_model_load_from_file (c_str (CommandLine.model_path o))
                               (CommandLine.ngl o) = Some m /\
    llama_init_from_model m (to_uint32 (CommandLine.n_ctx o))
                          (to_uint32 (CommandLine.n_ctx o)) = Some c.

End Main.

Arguments Host ctx model : clear implicits.

(** A host for the scripted engine: [stoi] reads an optional sign and
decimal digits and throws on anything else, every path but "missing" holds
a model, and a context of capacity 0 cannot be created. *)
Module ScriptedHost.

Fixpoint digits (s : string) (acc : Z) : option Z :=
  match s with
  | EmptyString => Some acc
  | String a s' =>
      let d := Z.of_nat (nat_of_ascii a) - 48 in
      if (0 <=? d) && (d <=? 9) then digits s' (10 * acc + d) else None
  end.

Definition decimal_stoi (s : string) : CommandLine.stoi_result :=
  match s with
  | EmptyString => CommandLine.StoiThrow "stoi"
  | String "-" (String a s') =>
      match digits (String a s') 0 with
      | Some v => if v <=? 2 ^ 31 then CommandLine.StoiValue (- v)
                  else CommandLine.StoiThrow "stoi"
      | None => CommandLine.StoiThrow "stoi"
      end
  | _ =>
      match digits s 0 with
      | Some v => if v <? 2 ^ 31 then CommandLine.StoiValue v
                  else CommandLine.StoiThrow "stoi"
      | None => CommandLine.StoiThrow "stoi"
      end
  end.

(** The model of a path is the script its sampler will follow. *)
Definition load_script (path : string) (n_gpu_layers : Z)
  : option (list llama_token) :=
  if (path =? "missing")%string then None else Some (Scripted.bytes_of path).

Definition init_script (m : list llama_token) (n_ctx n_batch : Z)
  : option Scripted.sctx :=
  if n_ctx =? 0 then None else Some (Scripted.fresh n_ctx m).

#[global] Instance scripted_host : Host Scripted.sctx (list llama_token) := {|
  stoi := decimal_stoi;
  llama_model_load_from_file := load_script;
  llama_init_from_model := init_script;
  model_engine := fun _ => Scripted.scripted_engine;
  model_template := fun _ => Scripted.scripted_template
|}.

(** The scripted engine with a tokenizer that refuses a text with a "#"
in it, whatever the size of the buffer. *)
Definition refusing_tokenize (text : string) (n_tokens_max : Z)
           (add_special parse_special : bool) : Z * list llama_token :=
  if existsb (fun a => (a =? "#")%char) (list_ascii_of_string text)
  then (-1, [])
  else Scripted.tokenize text n_tokens_max add_special parse_special.

Definition refusing_engine : Engine Scripted.sctx := {|
  llama_n_ctx := Scripted.capacity;
  llama_memory_seq_pos_max := Scripted.pos_max;
  llama_tokenize := refusing_tokenize;
  llama_decode := Scripted.decode;
  llama_sampler_sample := Scripted.sample;
  llama_vocab_is_eog := fun t => t =? 257;
  llama_token_to_piece := Scripted.token_to_piece;
  ggml_abort := Scripted.abort_text
|}.

(** The scripted engine with a tokenizer that answers INT_MIN, as
[llama_tokenize] does on an overflow, for a text with a "!" in it. *)
Definition overflowing_tokenize (text : string) (n_tokens_max : Z)
           (add_special parse_special : bool) : Z * list llama_token :=
  if existsb (fun a => (a =? "!")%char) (list_ascii_of_string text)
  then (- 2 ^ 31, [])
  else Scripted.tokenize text n_tokens_max add_special parse_special.

Definition overflowing_engine : Engine Scripted.sctx := {|
  llama_n_ctx := Scripted.capacity;
  llama_memory_seq_pos_max := Scripted.pos_max;
  llama_tokenize := overflowing_tokenize;
  llama_decode := Scripted.decode;
  llama_sampler_sample := Scripted.sample;
  llama_vocab_is_eog := fun t => t =? 257;
  llama_token_to_piece := Scripted.token_to_piece;
  ggml_abort := Scripted.abort_text
|}.

End ScriptedHost.

(** ** Facts about the conversions *)

Lemma to_int_small z : - 2 ^ 31 <= z < 2 ^ 31 -> to_int z = z.
Proof. intros H. unfold to_int. rewrite Z.mod_small by lia. lia. Qed.

Lemma to_int_range z : - 2 ^ 31 <= to_int z < 2 ^ 31.
Proof.
  unfold to_int. pose proof (Z.mod_pos_bound (z + 2 ^ 31) (2 ^ 32)). lia.
Qed.

Lemma to_int_le z : 0 <= z -> to_int z <= z.
Proof.
  intros H. unfold to_int.
  pose proof (Z.mod_le (z + 2 ^ 31) (2 ^ 32)). lia.
Qed.

Lemma to_int_large z : 2 ^ 31 <= z < 2 ^ 32 -> to_int z = z - 2 ^ 32.
Proof.
  intros H. unfold to_int.
  rewrite <- (Z.mod_unique (z + 2 ^ 31) (2 ^ 32) 1 (z - 2 ^ 31)); lia.
Qed.

Lemma int_of_uint32_le u : int_of_uint32 u <= u.
Proof. unfold int_of_uint32. destruct (u <? 2 ^ 31); lia. Qed.

Lemma int_of_uint32_small u : u < 2 ^ 31 -> int_of_uint32 u = u.
Proof.
  intros H. unfold int_of_uint32. destruct (u <? 2 ^ 31) eqn:Hu; lia.
Qed.

Lemma in_int_spec z : in_int z = true <-> - 2 ^ 31 <= z < 2 ^ 31.
Proof. unfold in_int. rewrite andb_true_iff, Z.leb_le, Z.ltb_lt. tauto. Qed.

(** ** Facts about [generate] *)

Section GenerateFacts.

Context {ctx : Type} {E : Engine ctx}.

Local Open Scope list_scope.

(** The test of line 132 against the capacity the engine reports. *)
Lemma context_full_over c b :
  llama_memory_seq_pos_max c + 1 + Z.of_nat (List.length b) > llama_n_ctx c ->
  context_full c b = true.
Proof.
  intros H. unfold context_full.
  pose proof (int_of_uint32_le (llama_n_ctx c)).
  destruct (in_int _); rewrite Z.gtb_ltb; apply Z.ltb_lt; lia.
Qed.

Lemma context_full_fits c b : context_full c b = false -> fits c b.
Proof.
  intros H. unfold fits.
  destruct (Z.le_gt_cases
              (llama_memory_seq_pos_max c + 1 + Z.of_nat (List.length b))
              (llama_n_ctx c)) as [Hle | Hgt]; [exact Hle|].
  rewrite context_full_over in H by lia. discriminate H.
Qed.


(** An [int] capacity and an [int] sum: the test is the comparison. *)
Lemma context_full_int c b :
  llama_n_ctx c < 2 ^ 31 ->
  fits c b ->
  - 2 ^ 31 <= llama_memory_seq_pos_max c + 1 + Z.of_nat (List.length b) ->
  context_full c b = false.
Proof.
  unfold fits, context_full. intros Hc Hf Hs.
  rewrite int_of_uint32_small by exact Hc.
  destruct (in_int _); rewrite Z.gtb_ltb; apply Z.ltb_ge; lia.
Qed.

(** A capacity from 2^31 on is a negative [int]: no batch has room. *)
Lemma context_full_large c b :
  2 ^ 31 <= llama_n_ctx c < 2 ^ 32 ->
  0 <= llama_memory_seq_pos_max c + 1 ->
  llama_memory_seq_pos_max c + 1 + Z.of_nat (List.length b) < 2 ^ 31 ->
  context_full c b = true.
Proof.
  intros Hc Hp Hs. unfold context_full, int_of_uint32.
  destruct (llama_n_ctx c <? 2 ^ 31) eqn:Hlt; [lia|].
  assert (Hin : in_int (llama_memory_seq_pos_max c + 1
                        + Z.of_nat (List.length b)) = true)
    by (apply in_int_spec; lia).
  rewrite Hin, Z.gtb_ltb. apply Z.ltb_lt. lia.
Qed.

Lemma iteration_cases n_predict c st r :
  iteration n_predict c st = r -> iteration_view n_predict c st r.
Proof.
  intros <-. unfold iteration.
  destruct (context_full c (batch st)) eqn:Hov.
  { apply IterOverflow. exact Hov. }
  destruct (llama_decode c (batch st)) as [ret c1] eqn:Hdec.
  destruct (ret =? 0) eqn:Hret; cbn [negb].
  2:{ eapply IterDecodeFail; eauto. lia. }
  apply Z.eqb_eq in Hret. subst ret.
  destruct (llama_sampler_sample c1) as [tok c2] eqn:Hs.
  fold (next_same st tok).
  destruct (stop_check _ _ _ _) as [why|] eqn:Hstop.
  { eapply IterStop; eauto. }
  destruct (llama_token_to_piece tok) as [k buf] eqn:Hp.
  assert (Hd : display tok = piece_of k buf)
    by (unfold display; rewrite Hp; reflexivity).
  rewrite <- Hd.
  destruct (k <? 0) eqn:Hk.
  { eapply IterPieceFail; eauto. rewrite Hp. cbn. lia. }
  destruct (_ >=? 10) eqn:Han.
  - eapply IterAnomaly; eauto; [rewrite Hp; cbn|]; lia.
  - eapply IterEmit; eauto; [rewrite Hp; cbn|]; lia.
Qed.

(** Read the pass off as a case analysis on [iteration n c st]. *)
Ltac by_cases n c st :=
  let r := fresh "r" in
  let Hr := fresh "Hr" in
  remember (iteration n c st) as r eqn:Hr;
  symmetry in Hr; apply iteration_cases in Hr;
  destruct Hr.

Lemma stop_check_none n_predict tok n_dec same :
  stop_check n_predict tok n_dec same = None ->
  llama_vocab_is_eog tok = false /\ n_dec < n_predict /\ same < 32.
Proof.
  unfold stop_check.
  destruct (llama_vocab_is_eog tok); [discriminate|].
  destruct (n_dec >=? n_predict) eqn:H1; [discriminate|].
  destruct (same >=? 32) eqn:H2; [discriminate|].
  intros _. repeat split; lia.
Qed.

Lemma stop_check_some n_predict tok n_dec same why :
  stop_check n_predict tok n_dec same = Some why ->
  (why = STOP_EOG /\ llama_vocab_is_eog tok = true) \/
  (why = STOP_MAXLEN /\ llama_vocab_is_eog tok = false
     /\ n_predict <= n_dec) \/
  (why = STOP_STALL /\ llama_vocab_is_eog tok = false
     /\ n_dec < n_predict /\ 32 <= same).
Proof.
  unfold stop_check.
  destruct (llama_vocab_is_eog tok); [intros [= <-]; auto|].
  destruct (n_dec >=? n_predict) eqn:H1;
    [intros [= <-]; right; left; repeat split; lia|].
  destruct (same >=? 32) eqn:H2; [|discriminate].
  intros [= <-]. right; right. repeat split; lia.
Qed.

(** *** The loop ends *)

Lemma loop_fuel_enough n_predict fuel : forall c st,
  (Z.to_nat (n_predict - n_decoded st) < fuel)%nat ->
  snd (loop fuel n_predict c st) <> OutOfFuel.
Proof.
  induction fuel as [|fuel IH]; intros c st Hf; [lia|].
  cbn [loop]. by_cases n_predict c st; cbn; try discriminate.
  match goal with H : stop_check _ _ _ _ = None |- _ =>
    apply stop_check_none in H; destruct H as (_ & Hn & _) end.
  specialize (IH c2 (advance st tok)).
  destruct (loop fuel n_predict c2 (advance st tok)) as [evs o].
  cbn in *. apply IH. lia.
Qed.

Lemma generate_terminates n_predict c prompt :
  snd (generate n_predict c prompt) <> OutOfFuel.
Proof.
  unfold generate.
  destruct (_ <? 0); [cbn; discriminate|].
  destruct (llama_tokenize prompt _ _ _) as [ret written].
  destruct (ret <? 0); [cbn; discriminate|].
  match goal with |- context [loop ?f ?n ?c0 ?st] =>
    pose proof (loop_fuel_enough n f c0 st) as H end.
  destruct (loop _ _ _ _) as [evs o]. cbn in *. apply H. lia.
Qed.

Lemma classify_step piece count :
  classify piece count = count + 1 \/ classify piece count = 0.
Proof.
  unfold classify.
  destruct (_ =? 1)%nat.
  - destruct piece as [|ch s]; auto. destruct (is_suspicious_char ch); auto.
  - destruct (_ || _); auto.
Qed.

Lemma loop_counters n_predict c st c' st' evs :
  counters_ok n_predict st ->
  iteration n_predict c st = (evs, Next c' st') ->
  counters_ok n_predict st'.
Proof.
  intros (Hs & Ha & Hn) Hit. apply iteration_cases in Hit.
  inversion Hit; subst.
  match goal with H : stop_check _ _ _ _ = None |- _ =>
    apply stop_check_none in H; destruct H as (_ & Hlt & Hsame) end.
  unfold counters_ok, advance; cbn.
  pose proof (classify_step (display tok) (anomaly_count st)).
  unfold next_same in *.
  destruct (tok =? last_token_id st); lia.
Qed.


(** *** Strings and lists *)

Lemma append_nil_r (s : string) : (s ++ "")%string = s.
Proof. induction s as [|a s IH]; cbn; [|rewrite IH]; reflexivity. Qed.

Lemma append_assoc (a b c : string) :
  ((a ++ b) ++ c)%string = (a ++ (b ++ c))%string.
Proof. induction a as [|x a IH]; cbn; [|rewrite IH]; reflexivity. Qed.

Lemma concat_pieces_app (a b : list string) :
  concat_pieces (a ++ b) = (concat_pieces a ++ concat_pieces b)%string.
Proof.
  unfold concat_pieces.
  induction a as [|x a IH]; cbn; [reflexivity|].
  rewrite IH, append_assoc. reflexivity.
Qed.

Lemma concat_pieces_snoc (a : list string) (p : string) :
  concat_pieces (a ++ [p]) = (concat_pieces a ++ p)%string.
Proof. rewrite concat_pieces_app. cbn. rewrite append_nil_r. reflexivity. Qed.

Lemma stall_of_snoc h t : stall_of (h ++ [t]) = stall_step (stall_of h) t.
Proof. unfold stall_of. rewrite fold_left_app. reflexivity. Qed.

Lemma anomaly_after_snoc ps p :
  anomaly_after (ps ++ [p]) = classify p (anomaly_after ps).
Proof. unfold anomaly_after. rewrite fold_left_app. reflexivity. Qed.

(** *** The locals follow the emitted tokens *)

Lemma consistent_init toks : consistent [] (init_state toks).
Proof. repeat split. Qed.

Lemma next_same_stall h st tok :
  consistent h st -> next_same st tok = snd (stall_of (h ++ [tok])).
Proof.
  intros (Hl & Hs & _). rewrite stall_of_snoc.
  unfold next_same, stall_step. rewrite Hl, Hs.
  destruct (tok =? fst (stall_of h)); reflexivity.
Qed.

Lemma consistent_advance h st tok :
  consistent h st -> consistent (h ++ [tok]) (advance st tok).
Proof.
  intros Hc. pose proof (next_same_stall h st tok Hc) as Hn.
  destruct Hc as (Hl & Hs & Ha & Hd & Hr).
  unfold consistent, advance; cbn.
  rewrite map_app; cbn [map].
  rewrite anomaly_after_snoc, concat_pieces_snoc, length_app, Hn, Ha, Hd, Hr.
  repeat split; try (cbn; lia).
  rewrite stall_of_snoc. unfold stall_step.
  destruct (tok =? fst (stall_of h)) eqn:Heq; cbn; [lia|reflexivity].
Qed.

Lemma all_pass_nil n_predict h : all_pass n_predict h [].
Proof. intros [|? ?] t q H; discriminate H. Qed.

Lemma all_pass_cons n_predict h t front :
  passes n_predict h t ->
  all_pass n_predict (h ++ [t]) front ->
  all_pass n_predict h (t :: front).
Proof.
  intros Ht Hf [|x p] u q Heq; cbn in Heq; injection Heq as -> ->.
  - rewrite app_nil_r. exact Ht.
  - specialize (Hf p u q eq_refl). rewrite <- app_assoc in Hf. exact Hf.
Qed.

Lemma loop_history n_predict fuel : forall c st h tr o,
  consistent h st ->
  loop fuel n_predict c st = (tr, o) ->
  exists front, run_summary n_predict h tr o front.
Proof.
  induction fuel as [|fuel IH]; intros c st h tr o Hc Hl; cbn [loop] in Hl.
  { injection Hl as <- <-. exists [].
    split; [reflexivity|]. split; [apply all_pass_nil|]. reflexivity. }
  pose proof (fun tok => next_same_stall h st tok Hc) as Hsame.
  pose proof Hc as (_ & _ & Ha & Hd & Hr).
  revert Hl. by_cases n_predict c st; intros Hl;
    try (injection Hl as <- <-; exists [];
         split; [reflexivity|]; split; [apply all_pass_nil|];
         cbn [sampled app]; rewrite ?app_nil_r).
  - left; reflexivity.
  - left; reflexivity.
  - exists tok. split; [reflexivity|]. split; [exact Hr|].
    left. rewrite <- Hd, <- Hsame; assumption.
  - right. exists tok. split; [reflexivity|].
    rewrite <- Hd, <- Hsame; assumption.
  - exists tok. split; [reflexivity|]. split; [exact Hr|].
    right. rewrite map_app; cbn [map].
    rewrite anomaly_after_snoc, <- Ha, <- Hd, <- Hsame.
    repeat split; assumption.
  - destruct (loop fuel n_predict c2 (advance st tok)) as [tr' o'] eqn:Hl'.
    injection Hl as <- <-.
    apply (IH _ _ (h ++ [tok])) in Hl'; [|apply consistent_advance; exact Hc].
    destruct Hl' as (front & He & Hp & Ho).
    exists (tok :: front). split; [cbn; rewrite He; reflexivity|].
    split.
    + apply all_pass_cons; [|exact Hp].
      unfold passes.
      rewrite map_app; cbn [map].
      rewrite anomaly_after_snoc, <- Ha, <- Hd, <- Hsame.
      repeat split; assumption.
    + rewrite <- app_assoc in Ho. cbn [app] in Ho.
      destruct o'; cbn [sampled app]; try exact Ho.
      * destruct Ho as (t & Hs & Ho). exists t. rewrite Hs. split; auto.
      * destruct Ho as [Hs | (t & Hs & Ho)]; [left | right].
        -- rewrite Hs; reflexivity.
        -- exists t. rewrite Hs. split; auto.
      * destruct Ho as [Hs | (t & Hs & Ho)]; [left | right].
        -- rewrite Hs; reflexivity.
        -- exists t. rewrite Hs. split; auto.
      * rewrite Ho; reflexivity.
Qed.

Lemma generate_history n_predict c prompt tr o :
  generate n_predict c prompt = (tr, o) ->
  exists front, run_summary n_predict [] tr o front.
Proof.
  unfold generate.
  destruct (_ <? 0).
  { intros [= <- <-]. exists [].
    split; [reflexivity|]. split; [apply all_pass_nil|]. left; reflexivity. }
  destruct (llama_tokenize prompt _ _ _) as [ret written].
  destruct (ret <? 0).
  { intros [= <- <-]. exists [].
    split; [reflexivity|]. split; [apply all_pass_nil|]. left; reflexivity. }
  destruct (loop _ _ _ _) as [evs o'] eqn:Hl.
  intros [= <- <-].
  apply (loop_history _ _ _ _ []) in Hl; [|apply consistent_init].
  destruct Hl as (front & He & Hp & Ho).
  exists front. split; [exact He|]. split; [exact Hp|].
  destruct o'; exact Ho.
Qed.

(** *** Runs of one token *)

Lemma stall_of_nonneg h : 0 <= snd (stall_of h).
Proof.
  induction h as [|t h IH] using rev_ind; [cbn; lia|].
  rewrite stall_of_snoc. unfold stall_step.
  destruct (t =? fst (stall_of h)); cbn; lia.
Qed.

(** The count never exceeds the run the tokens end with. *)
Lemma stall_of_run h :
  exists pre,
    h = pre ++ repeat (fst (stall_of h)) (Z.to_nat (snd (stall_of h))).
Proof.
  induction h as [|t h IH] using rev_ind.
  { exists []. reflexivity. }
  rewrite stall_of_snoc. unfold stall_step.
  pose proof (stall_of_nonneg h) as Hn.
  destruct (t =? fst (stall_of h)) eqn:Heq; cbn [fst snd].
  - apply Z.eqb_eq in Heq. subst t. destruct IH as (pre & IH).
    exists pre. rewrite Z2Nat.inj_add by lia.
    rewrite repeat_app, app_assoc, <- IH. reflexivity.
  - exists h. reflexivity.
Qed.

(** The count is at least the run the tokens end with. *)
Lemma stall_of_repeat pre t k :
  fst (stall_of (pre ++ repeat t (S k))) = t /\
  Z.of_nat (S k) <= snd (stall_of (pre ++ repeat t (S k))).
Proof.
  induction k as [|k IH].
  - cbn [repeat]. rewrite stall_of_snoc. unfold stall_step.
    pose proof (stall_of_nonneg pre).
    destruct (t =? fst (stall_of pre)) eqn:Heq; cbn [fst snd].
    + apply Z.eqb_eq in Heq. split; [auto | lia].
    + split; [reflexivity | lia].
  - replace (repeat t (S (S k))) with (repeat t (S k) ++ [t])
      by (rewrite <- repeat_cons; reflexivity).
    rewrite app_assoc, stall_of_snoc. unfold stall_step.
    destruct IH as (-> & IH). rewrite Z.eqb_refl. cbn [fst snd].
    split; [reflexivity | lia].
Qed.

Lemma stall_run_32 h :
  32 <= snd (stall_of h) -> exists pre t, h = pre ++ repeat t 32.
Proof.
  intros H. destruct (stall_of_run h) as (pre & Hh).
  set (t := fst (stall_of h)) in *. set (k := snd (stall_of h)) in *.
  exists (pre ++ repeat t (Z.to_nat k - 32)), t.
  rewrite <- app_assoc, <- repeat_app.
  replace (Z.to_nat k - 32 + 32)%nat with (Z.to_nat k) by lia.
  exact Hh.
Qed.

(** *** Runs of suspicious pieces *)

Lemma classify_suspicious piece count :
  classify piece count = if suspicious piece then count + 1 else 0.
Proof.
  unfold classify, suspicious.
  destruct piece as [|ch [|ch' s]]; reflexivity.
Qed.

Lemma anomaly_after_nonneg ps : 0 <= anomaly_after ps.
Proof.
  induction ps as [|p ps IH] using rev_ind; [cbn; lia|].
  rewrite anomaly_after_snoc, classify_suspicious.
  destruct (suspicious p); lia.
Qed.

(** The counter is the length of the run of suspicious pieces the stream
ends with. *)
Lemma anomaly_after_run ps :
  exists pre run,
    ps = pre ++ run /\
    Z.of_nat (List.length run) = anomaly_after ps /\
    Forall (fun p => suspicious p = true) run /\
    (forall pre' p, pre = pre' ++ [p] -> suspicious p = false).
Proof.
  induction ps as [|p ps IH] using rev_ind.
  { exists [], []. repeat split; auto.
    intros [|? ?] ? H; discriminate H. }
  rewrite anomaly_after_snoc, classify_suspicious.
  destruct (suspicious p) eqn:Hp.
  - destruct IH as (pre & run & -> & Hlen & Hall & Hpre).
    exists pre, (run ++ [p]). rewrite app_assoc, length_app.
    repeat split; auto; [cbn; lia|].
    apply Forall_app. split; [exact Hall | constructor; auto].
  - exists (ps ++ [p]), []. rewrite app_nil_r. repeat split; auto.
    intros pre' p' H. apply app_inj_tail in H. destruct H as (_ & <-).
    exact Hp.
Qed.

Lemma anomaly_after_suspicious pre run :
  Forall (fun p => suspicious p = true) run ->
  anomaly_after (pre ++ run) = anomaly_after pre + Z.of_nat (List.length run).
Proof.
  intros H. revert pre.
  induction H as [|p run Hp _ IH]; intros pre.
  { rewrite app_nil_r. cbn. lia. }
  replace (pre ++ p :: run) with ((pre ++ [p]) ++ run)
    by (rewrite <- app_assoc; reflexivity).
  rewrite IH, anomaly_after_snoc, classify_suspicious, Hp.
  cbn [List.length]. lia.
Qed.

(** *** Traces *)

Lemma decoded_app (a b : list (event ctx)) :
  decoded (a ++ b) = decoded a ++ decoded b.
Proof.
  induction a as [|[] a IH]; cbn; rewrite ?IH; reflexivity.
Qed.

Lemma tokenized_app (a b : list (event ctx)) :
  tokenized (a ++ b) = tokenized a ++ tokenized b.
Proof.
  induction a as [|[] a IH]; cbn; rewrite ?IH; reflexivity.
Qed.

Lemma emitted_app (a b : list (event ctx)) :
  emitted (a ++ b) = emitted a ++ emitted b.
Proof.
  induction a as [|[] a IH]; cbn; rewrite ?IH; reflexivity.
Qed.


Lemma loop_no_tokenize n_predict fuel : forall c st,
  tokenized (fst (loop fuel n_predict c st)) = [].
Proof.
  induction fuel as [|fuel IH]; intros c st; cbn [loop]; [reflexivity|].
  by_cases n_predict c st; try reflexivity.
  specialize (IH c2 (advance st tok)).
  destruct (loop fuel n_predict c2 (advance st tok)) as [evs o].
  exact IH.
Qed.

Lemma loop_exit n_predict fuel : forall c st tr status,
  loop fuel n_predict c st = (tr, Exited status) ->
  status = 0 /\ exists tr0, tr = tr0 ++ overflow_notice.
Proof.
  induction fuel as [|fuel IH]; intros c st tr status; cbn [loop];
    [discriminate|].
  by_cases n_predict c st; try discriminate.
  - intros [= <- <-]. split; [reflexivity|]. exists []. reflexivity.
  - destruct (loop fuel n_predict c2 (advance st tok)) as [evs o] eqn:Hl.
    intros [= <- ->]. apply IH in Hl. destruct Hl as (-> & tr0 & ->).
    split; [reflexivity|].
    exists ([EvDecode c (batch st); EvSample tok;
             EvStdout (c_str (display tok)); EvPiece (display tok)] ++ tr0).
    rewrite <- app_assoc. reflexivity.
Qed.


(** The first decode of the loop is of the batch it starts from, on the
context it starts from. *)
Lemma loop_first_decode n_predict fuel c st c0 b rest :
  decoded (fst (loop fuel n_predict c st)) = (c0, b) :: rest ->
  c0 = c /\ b = batch st.
Proof.
  destruct fuel as [|fuel]; cbn [loop]; [discriminate|].
  by_cases n_predict c st; try discriminate;
    try (intros [= <- <- _]; split; reflexivity).
  destruct (loop fuel n_predict c2 (advance st tok)) as [evs o].
  intros [= <- <- _]. split; reflexivity.
Qed.

(** C6: [generate] tokenizes the prompt asking for the leading
beginning-of-sequence marker exactly when the context holds no token of
sequence 0 ([n_ctx_used = pos_max + 1 = 0]), and always asking for
special-token parsing. Both calls of [llama_tokenize] are on the prompt
with these two flags, there is at least one and the loop makes none; and
what the call does next is decided by what the tokenizer answers to these
very calls: it aborts on a negative size or a negative answer of the
second, and otherwise runs the loop from the tokens the second wrote, which
are the batch of the first decode. *)
Theorem C6_bos_iff_context_empty n_predict c prompt :
  let used := llama_memory_seq_pos_max c + 1 in
  let n := to_int (- fst (llama_tokenize prompt 0 (used =? 0) true)) in
  let second := llama_tokenize prompt n (used =? 0) true in
  let ev0 := EvTokenize prompt 0 (used =? 0) true in
  let ev1 := EvTokenize prompt n (used =? 0) true in
  (exists rest,
     tokenized (fst (generate n_predict c prompt))
     = (prompt, 0, used =? 0, true) :: rest) /\
  Forall (fun call =>
            match call with
            | (text, _, add_special, parse_special) =>
                text = prompt /\ add_special = (used =? 0) /\
                parse_special = true
            end)
         (tokenized (fst (generate n_predict c prompt))) /\
  generate n_predict c prompt
  = (if n <? 0 then ([ev0], Aborted AbortVectorLength)
     else if fst second <? 0 then
       ([ev0; ev1;
         abort_message 118 ("failed to tokenize the prompt" ++ LF)%string],
        Aborted AbortTokenize)
     else
       let run := loop (S (Z.to_nat n_predict)) n_predict c
                       (init_state (fill_vector n (snd second))) in
       (ev0 :: ev1 :: fst run, snd run)) /\
  (forall c0 b rest,
     decoded (fst (generate n_predict c prompt)) = (c0, b) :: rest ->
     c0 = c /\ b = fill_vector n (snd second)).
Proof.
  cbv zeta.
  assert (Hf : (llama_memory_seq_pos_max c =? -1)
               = (llama_memory_seq_pos_max c + 1 =? 0)).
  { destruct (llama_memory_seq_pos_max c =? -1) eqn:H1;
      destruct (llama_memory_seq_pos_max c + 1 =? 0) eqn:H2; auto; lia. }
  match goal with |- _ /\ _ /\ ?eq /\ _ => assert (Heq : eq) end.
  { unfold generate. rewrite Hf.
    destruct (to_int _ <? 0); [reflexivity|].
    destruct (llama_tokenize prompt (to_int _) _ _) as [ret written].
    cbn [fst snd].
    destruct (ret <? 0); [reflexivity|].
    destruct (loop _ _ _ _) as [evs o]. reflexivity. }
  split; [|split; [|split; [exact Heq|]]]; rewrite Heq;
    (destruct (to_int _ <? 0);
     [|destruct (fst _ <? 0)]); unfold abort_message;
    cbn [fst snd tokenized decoded].
  - eexists; reflexivity.
  - eexists; reflexivity.
  - eexists; reflexivity.
  - repeat constructor.
  - repeat constructor.
  - rewrite loop_no_tokenize. repeat constructor.
  - discriminate.
  - discriminate.
  - intros c0 b rest H. exact (loop_first_decode _ _ _ _ _ _ _ H).
Qed.

Ltac c9_frame :=
  let Heq := fresh "Heq" in
  intros [= <- <-]; unfold quality_warning, overflow_notice, abort_message;
  cbn [emitted decoded sampled List.length app];
  (split; [reflexivity|]); (split; [lia|]); (split; [lia|]);
  intros resp why' c' Heq; try discriminate Heq.

(** C9: with [n_predict <= 0] nothing is printed and the response is
empty, and yet a call that returns has decoded the prompt batch once and
sampled once: the test [n_decoded >= n_predict] of line 153 comes after
both. It ends the first pass (as the end-of-generation test does when the
sampled token is one). *)
Theorem C9_nonpositive_max_predict n_predict c prompt tr o :
  n_predict <= 0 ->
  generate n_predict c prompt = (tr, o) ->
  emitted tr = [] /\
  (List.length (decoded tr) <= 1)%nat /\
  (List.length (sampled tr) <= 1)%nat /\
  forall resp why c',
    o = Returned resp why c' ->
    resp = ""%string /\
    decoded tr = [(c, prompt_tokens c prompt)] /\
    exists t,
      sampled tr = [t] /\
      why = if llama_vocab_is_eog t then STOP_EOG else STOP_MAXLEN.
Proof.
  intros Hn. unfold generate, prompt_tokens.
  destruct (_ <? 0); [c9_frame|].
  destruct (llama_tokenize prompt _ _ _) as [ret written].
  destruct (ret <? 0); [c9_frame|].
  replace (Z.to_nat n_predict) with 0%nat by lia.
  cbn [loop snd].
  match goal with |- context [iteration ?n ?c ?st] => by_cases n c st end.
  1-5: c9_frame.
  - injection Heq as <- <- <-.
    split; [reflexivity|]. split; [reflexivity|].
    exists tok. split; [reflexivity|].
    match goal with H : stop_check _ _ _ _ = Some _ |- _ =>
      apply stop_check_some in H;
      destruct H as [(-> & ->) | [(-> & -> & _) | (_ & _ & Hlt & _)]] end;
      try reflexivity.
    cbn in Hlt. lia.
  - exfalso.
    match goal with H : stop_check _ _ _ _ = None |- _ =>
      apply stop_check_none in H; cbn in H end. lia.
  - exfalso.
    match goal with H : stop_check _ _ _ _ = None |- _ =>
      apply stop_check_none in H; cbn in H end. lia.
Qed.

(** What the pass does once a piece has been classified: lines 180-195. *)
Lemma iteration_classified n_predict c st c1 tok c2 :
  context_full c (batch st) = false ->
  llama_decode c (batch st) = (0, c1) ->
  llama_sampler_sample c1 = (tok, c2) ->
  stop_check n_predict tok (n_decoded st) (next_same st tok) = None ->
  0 <= fst (llama_token_to_piece tok) ->
  iteration n_predict c st =
  if 10 <=? classify (display tok) (anomaly_count st) then
    (EvDecode c (batch st) :: EvSample tok :: quality_warning,
     Stop (Returned (response st) STOP_ANOMALY c2))
  else
    ([EvDecode c (batch st); EvSample tok;
      EvStdout (c_str (display tok)); EvPiece (display tok)],
     Next c2 (advance st tok)).
Proof.
  intros Hfit Hdec Hs Hstop Hp.
  by_cases n_predict c st;
    repeat match goal with
           | H1 : ?x = _, H2 : ?x = _ |- _ =>
               rewrite H1 in H2; try discriminate H2;
               injection H2 as; subst
           end;
    try congruence; try lia.
  - destruct (10 <=? _) eqn:Hc; [reflexivity | lia].
  - destruct (10 <=? _) eqn:Hc; [lia | reflexivity].
Qed.

Lemma anomaly_after_reset before piece after :
  suspicious piece = false ->
  anomaly_after (before ++ piece :: after) = anomaly_after after.
Proof.
  intros H. unfold anomaly_after. rewrite fold_left_app. cbn [fold_left].
  rewrite classify_suspicious, H. reflexivity.
Qed.

(** C10: a piece of length zero ([n = 0] from the detokenizer) goes
through the last [else] of line 175 and sets the counter to 0, as any
multi-character piece that is not one of the two glyphs does; so the
suspicious pieces before it do not count, and after it the counter is the
length of the run that follows. *)
Theorem C10_empty_piece_resets :
  (forall buf, piece_of 0 buf = ""%string) /\
  (forall count, classify "" count = 0) /\
  (forall count, classify "" count = classify "ab" count) /\
  (forall n_predict c st evs c' st',
     iteration n_predict c st = (evs, Next c' st') ->
     emitted evs = [""%string] ->
     anomaly_count st' = 0) /\
  (forall before after,
     anomaly_after (before ++ ""%string :: after) = anomaly_after after) /\
  (forall before run,
     Forall (fun p => suspicious p = true) run ->
     anomaly_after (before ++ ""%string :: run)
     = Z.of_nat (List.length run)).
Proof.
  split; [intros [|a buf]; reflexivity|].
  split; [reflexivity|].
  split; [reflexivity|].
  split.
  { intros n_predict c st evs c' st' Hit He.
    apply iteration_cases in Hit. inversion Hit; subst.
    cbn in He. injection He as He. cbn. rewrite He. reflexivity. }
  split.
  { intros. apply anomaly_after_reset. reflexivity. }
  intros before run H.
  replace (before ++ ""%string :: run) with ((before ++ [""%string]) ++ run)
    by (rewrite <- app_assoc; reflexivity).
  rewrite anomaly_after_suspicious by exact H.
  rewrite anomaly_after_snoc. cbn. reflexivity.
Qed.

(** *** The anomaly stop *)

Lemma sampled_app (a b : list (event ctx)) :
  sampled (a ++ b) = sampled a ++ sampled b.
Proof.
  induction a as [|[] a IH]; cbn; rewrite ?IH; reflexivity.
Qed.

Lemma stop_check_not_anomaly n_predict tok n_dec same :
  stop_check n_predict tok n_dec same <> Some STOP_ANOMALY.
Proof.
  intros H. apply stop_check_some in H.
  destruct H as [(H & _) | [(H & _) | (H & _)]]; discriminate H.
Qed.

(** After the token that trips the anomaly test only the warning is
printed. *)
Lemma loop_anomaly_tail n_predict fuel : forall c st tr resp c',
  loop fuel n_predict c st = (tr, Returned resp STOP_ANOMALY c') ->
  exists tr0 t, tr = tr0 ++ EvSample t :: quality_warning.
Proof.
  induction fuel as [|fuel IH]; intros c st tr resp c'; cbn [loop];
    [discriminate|].
  by_cases n_predict c st; try discriminate.
  - intros [= _ _ -> _].
    match goal with H : stop_check _ _ _ _ = Some _ |- _ =>
      apply stop_check_not_anomaly in H; destruct H end.
  - intros [= <- <- <-]. exists [EvDecode c (batch st)], tok. reflexivity.
  - destruct (loop fuel n_predict c2 (advance st tok)) as [evs o] eqn:Hl.
    intros [= <- ->]. apply IH in Hl. destruct Hl as (tr0 & t & ->).
    exists ([EvDecode c (batch st); EvSample tok;
               EvStdout (c_str (display tok)); EvPiece (display tok)]
              ++ tr0), t.
    rewrite <- app_assoc. reflexivity.
Qed.

Lemma generate_anomaly_tail n_predict c prompt tr resp c' :
  generate n_predict c prompt = (tr, Returned resp STOP_ANOMALY c') ->
  exists tr0 t, tr = tr0 ++ EvSample t :: quality_warning.
Proof.
  unfold generate.
  destruct (_ <? 0); [discriminate|].
  destruct (llama_tokenize prompt _ _ _) as [ret written].
  destruct (ret <? 0); [discriminate|].
  destruct (loop _ _ _ _) as [evs o] eqn:Hl.
  intros [= <- ->]. apply loop_anomaly_tail in Hl.
  destruct Hl as (tr0 & t & ->).
  eexists (_ :: _ :: tr0), t. reflexivity.
Qed.

(** While the loop goes on the counter is below 10. *)
Lemma all_pass_anomaly n_predict front p q :
  all_pass n_predict [] front ->
  map display front = p ++ q ->
  anomaly_after p < 10.
Proof.
  intros Hp Hm. apply map_eq_app in Hm.
  destruct Hm as (f1 & f2 & -> & <- & _).
  destruct f1 as [|x f1] using rev_ind; [cbn; lia|].
  clear IHf1. rewrite <- app_assoc in Hp.
  destruct (Hp f1 x f2 eq_refl) as (_ & _ & H). exact H.
Qed.

Lemma final_anomaly n_predict front t :
  all_pass n_predict [] front ->
  final n_predict front t STOP_ANOMALY ->
  anomaly_after (map display (front ++ [t])) = 10.
Proof.
  intros Hp [H | (_ & _ & H & _)];
    [apply stop_check_not_anomaly in H; destruct H|].
  pose proof (all_pass_anomaly n_predict front (map display front) []
                Hp (eq_sym (app_nil_r _))) as Hlt.
  rewrite map_app in *. cbn [map] in *.
  rewrite anomaly_after_snoc in *.
  destruct (classify_step (display t) (anomaly_after (map display front)));
    lia.
Qed.

(** C8: when the anomaly test of line 180 ends the call, the piece that
tripped it was neither printed nor appended: the trace ends with the
sampling of that token and the warning, the pieces printed and the
response are those of the tokens before it, and of the run of ten
suspicious pieces that token completes the response holds the first
nine. *)
Theorem C8_anomaly_piece_not_output n_predict c prompt tr resp c' :
  generate n_predict c prompt = (tr, Returned resp STOP_ANOMALY c') ->
  exists tr0 front t,
    tr = tr0 ++ EvSample t :: quality_warning /\
    sampled tr = front ++ [t] /\
    emitted tr = emitted tr0 /\
    emitted tr = map display front /\
    resp = concat_pieces (map display front) /\
    exists before run,
      front = before ++ run /\
      List.length run = 9%nat /\
      Forall (fun x => suspicious (display x) = true) (run ++ [t]) /\
      (forall b x, before = b ++ [x] -> suspicious (display x) = false).
Proof.
  intros Hg.
  destruct (generate_anomaly_tail _ _ _ _ _ _ Hg) as (tr0 & t0 & Htr).
  destruct (generate_history _ _ _ _ _ Hg)
    as (front & He & Hp & t & Hs & Hr & Hf).
  cbn [app] in Hr, Hf.
  assert (t0 = t) as ->.
  { rewrite Htr, sampled_app in Hs. cbn in Hs.
    apply app_inj_tail in Hs. apply Hs. }
  exists tr0, front, t.
  split; [exact Htr|]. split; [exact Hs|].
  split; [rewrite Htr, emitted_app; cbn; apply app_nil_r|].
  split; [exact He|]. split; [exact Hr|].
  pose proof (final_anomaly _ _ _ Hp Hf) as H10.
  destruct (anomaly_after_run (map display (front ++ [t])))
    as (pre & run & Hsplit & Hlen & Hall & Hpre).
  rewrite H10 in Hlen.
  destruct run as [|y run] using rev_ind; [cbn in Hlen; lia|]. clear IHrun.
  rewrite map_app, app_assoc in Hsplit. cbn [map] in Hsplit.
  apply app_inj_tail in Hsplit. destruct Hsplit as (Hfront & <-).
  apply map_eq_app in Hfront.
  destruct Hfront as (before & run' & -> & <- & <-).
  exists before, run'.
  split; [reflexivity|].
  rewrite length_app, length_map in Hlen. cbn in Hlen.
  split; [lia|]. split.
  - replace [display t] with (map display [t]) in Hall by reflexivity.
    rewrite <- map_app in Hall. apply Forall_map in Hall. exact Hall.
  - intros b x ->. apply (Hpre (map display b) (display x)).
    rewrite map_app. reflexivity.
Qed.

Lemma stdout_of_app (a b : list (event ctx)) :
  stdout_of (a ++ b) = (stdout_of a ++ stdout_of b)%string.
Proof.
  induction a as [|[] a IH]; cbn; rewrite ?IH, ?append_assoc; reflexivity.
Qed.

(** What a call prints: the pieces, each up to its first NUL, and then
the closing output. *)
Lemma loop_stdout n_predict fuel : forall c st tr o,
  loop fuel n_predict c st = (tr, o) ->
  stdout_of tr
  = (concat_pieces (map c_str (emitted tr)) ++ closing_output o)%string.
Proof.
  induction fuel as [|fuel IH]; intros c st tr o; cbn [loop].
  { intros [= <- <-]. reflexivity. }
  by_cases n_predict c st.
  - intros [= <- <-]. reflexivity.
  - intros [= <- <-]. reflexivity.
  - intros [= <- <-].
    destruct why; try reflexivity.
    exfalso. eapply stop_check_not_anomaly. eassumption.
  - intros [= <- <-]. reflexivity.
  - intros [= <- <-]. reflexivity.
  - destruct (loop fuel n_predict c2 (advance st tok)) as [tr' o'] eqn:Hl.
    intros [= <- <-]. cbn. rewrite (IH _ _ _ _ Hl), append_assoc.
    reflexivity.
Qed.

Lemma generate_stdout n_predict c prompt tr o :
  generate n_predict c prompt = (tr, o) ->
  stdout_of tr
  = (concat_pieces (map c_str (emitted tr)) ++ closing_output o)%string.
Proof.
  unfold generate.
  destruct (_ <? 0); [intros [= <- <-]; reflexivity|].
  destruct (llama_tokenize prompt _ _ _) as [ret written].
  destruct (ret <? 0); [intros [= <- <-]; reflexivity|].
  destruct (loop _ _ _ _) as [evs o'] eqn:Hl.
  intros [= <- <-]. cbn. exact (loop_stdout _ _ _ _ _ _ Hl).
Qed.

Lemma generate_below_10 n_predict c prompt tr o p q :
  generate n_predict c prompt = (tr, o) ->
  emitted tr = p ++ q ->
  anomaly_after p < 10.
Proof.
  intros Hg He.
  destruct (generate_history _ _ _ _ _ Hg) as (front & Hf & Hp & _).
  rewrite Hf in He. exact (all_pass_anomaly _ _ _ _ Hp He).
Qed.

(** C3: how the anomaly counter moves and when it stops the loop. The
rule of lines 166-177 on one piece. The pass of the loop that classifies a
piece, when the test of line 132 lets it through, the decode returns 0 and
the tests of lines 153 and 160 do not hold: it stores [classify piece
count]; when that is 10 it prints the five lines of the diagnostic and
ends the call, with neither the piece printed nor appended; otherwise it
prints the piece and goes on, with nothing of the diagnostic. Over a whole
call the counter is below 10 after every piece printed, and a call that
stops on the counter ends with the sampling of a token whose piece takes
it to 10, followed by the five lines of the diagnostic on stdout. Nine
"(" leave the counter at 9, a tenth takes it to 10, and with another piece
as the fifth, nine more "(" leave it at 9. *)
Theorem C3_anomaly_counter :
  let diagnostic : list (event ctx) :=
    [ EvStdout (LF ++ LF ++ "🚨 [模型质量警告] 🚨" ++ LF);
      EvStdout ("检测到模型输出异常字符。这通常表明:" ++ LF);
      EvStdout ("• 模型文件可能损坏或质量不佳" ++ LF);
      EvStdout ("• 建议尝试其他GGUF模型文件" ++ LF);
      EvStdout ("• 或者检查模型是否与llama.cpp兼容" ++ LF ++ LF) ]%string in
  (forall count,
     classify "(" count = count + 1 /\
     classify ")" count = count + 1 /\
     classify "@" count = count + 1) /\
  (forall ch count,
     ch <> "("%char -> ch <> ")"%char -> ch <> "@"%char ->
     classify (String ch "") count = 0) /\
  (forall count,
     classify glyph_o_acute count = count + 1 /\
     classify glyph_g_o_acute count = count + 1) /\
  (forall piece count,
     (2 <= String.length piece)%nat ->
     piece <> glyph_o_acute -> piece <> glyph_g_o_acute ->
     classify piece count = 0) /\
  (forall n_predict c st c1 tok c2,
     context_full c (batch st) = false ->
     llama_decode c (batch st) = (0, c1) ->
     llama_sampler_sample c1 = (tok, c2) ->
     stop_check n_predict tok (n_decoded st) (next_same st tok) = None ->
     0 <= fst (llama_token_to_piece tok) ->
     anomaly_count st < 10 ->
     let count := classify (display tok) (anomaly_count st) in
     (count = 10 ->
      iteration n_predict c st =
      (EvDecode c (batch st) :: EvSample tok :: diagnostic,
       Stop (Returned (response st) STOP_ANOMALY c2))) /\
     (count <> 10 ->
      exists st',
        iteration n_predict c st =
        ([EvDecode c (batch st); EvSample tok;
          EvStdout (c_str (display tok)); EvPiece (display tok)],
         Next c2 st') /\
        anomaly_count st' = count /\ count < 10)) /\
  (forall n_predict c prompt tr o,
     generate n_predict c prompt = (tr, o) ->
     (forall p q, emitted tr = p ++ q -> anomaly_after p < 10) /\
     (forall resp c',
        o = Returned resp STOP_ANOMALY c' ->
        exists tr0 t,
          tr = tr0 ++ EvSample t :: diagnostic /\
          anomaly_after (emitted tr ++ [display t]) = 10 /\
          stdout_of tr
          = (concat_pieces (map c_str (emitted tr))
               ++ stdout_of diagnostic)%string)) /\
  (anomaly_after (repeat "("%string 9) = 9 /\
   anomaly_after (repeat "("%string 10) = 10 /\
   anomaly_after (repeat "("%string 4 ++ ["a"%string] ++ repeat "("%string 9)
   = 9).
Proof.
  intros diagnostic.
  split; [intros; repeat split; reflexivity|].
  split.
  { intros ch count H1 H2 H3. unfold classify, is_suspicious_char. cbn.
    apply Ascii.eqb_neq in H1, H2, H3. rewrite H1, H2, H3. reflexivity. }
  split; [intros; split; reflexivity|].
  split.
  { intros piece count Hlen H1 H2. rewrite classify_suspicious.
    unfold suspicious.
    apply String.eqb_neq in H1, H2. rewrite H1, H2.
    destruct piece as [|a [|b s]]; cbn in Hlen; try lia. reflexivity. }
  split.
  { intros n_predict c st c1 tok c2 Hfit Hdec Hs Hstop Hp Hlt count.
    pose proof (iteration_classified n_predict c st c1 tok c2
                  Hfit Hdec Hs Hstop Hp) as Hit.
    fold count in Hit.
    pose proof (classify_step (display tok) (anomaly_count st)) as Hstep.
    fold count in Hstep.
    split; intros Hc.
    - rewrite Hit. destruct (10 <=? count) eqn:H; [reflexivity | lia].
    - exists (advance st tok). rewrite Hit.
      destruct (10 <=? count) eqn:H; [lia|].
      repeat split. lia. }
  split.
  { intros n_predict c prompt tr o Hg. split.
    - intros p q. apply (generate_below_10 _ _ _ _ _ _ _ Hg).
    - intros resp c' ->.
      destruct (generate_anomaly_tail _ _ _ _ _ _ Hg) as (tr0 & t0 & Htr).
      destruct (generate_history _ _ _ _ _ Hg)
        as (front & He & Hp & t & Hs & _ & Hf).
      cbn [app] in Hf.
      assert (t0 = t) as ->.
      { rewrite Htr, sampled_app in Hs. cbn in Hs.
        apply app_inj_tail in Hs. apply Hs. }
      exists tr0, t. split; [exact Htr|]. split.
      + rewrite He.
        replace [display t] with (map display [t]) by reflexivity.
        rewrite <- map_app. exact (final_anomaly _ _ _ Hp Hf).
      + rewrite (generate_stdout _ _ _ _ _ Hg). reflexivity. }
  repeat split; reflexivity.
Qed.

(** *** The stall guard and the length limit *)

(** The tokens sampled are those emitted and at most one more. *)
Lemma summary_sampled n_predict tr o front :
  run_summary n_predict [] tr o front ->
  sampled tr = front \/ exists t, sampled tr = front ++ [t].
Proof.
  intros (_ & _ & Ho). destruct o.
  - destruct Ho as (t & Hs & _). right. exists t. exact Hs.
  - destruct Ho as [Hs | (t & Hs & _)]; [left | right; exists t]; exact Hs.
  - destruct Ho as [Hs | (t & Hs & _)]; [left | right; exists t]; exact Hs.
  - left. exact Ho.
Qed.

(** A sampled token that is not the last one passed every test. *)
Lemma summary_inner n_predict tr o front a t b :
  run_summary n_predict [] tr o front ->
  sampled tr = a ++ t :: b -> b <> [] ->
  passes n_predict a t.
Proof.
  intros Hsum Hs Hb. pose proof Hsum as (_ & Hp & _).
  destruct (exists_last Hb) as (b' & y & ->).
  destruct (summary_sampled _ _ _ _ Hsum) as [Hf | (tl & Hf)];
    rewrite Hf in Hs.
  - exact (Hp a t _ Hs).
  - change (a ++ t :: b' ++ [y]) with (a ++ (t :: b') ++ [y]) in Hs.
    rewrite app_assoc in Hs. apply app_inj_tail in Hs.
    destruct Hs as (Hs & _). exact (Hp a t _ Hs).
Qed.

Lemma repeat_snoc {A} (x : A) k : repeat x (S k) = repeat x k ++ [x].
Proof. rewrite <- repeat_cons. reflexivity. Qed.

Lemma passes_no_run n_predict pre t :
  ~ passes n_predict (pre ++ repeat t 31) t.
Proof.
  intros (H & _). apply stop_check_none in H. destruct H as (_ & _ & H).
  rewrite <- app_assoc, <- repeat_snoc in H.
  pose proof (stall_of_repeat pre t 31) as (_ & Hge). lia.
Qed.

(** C2: the stall guard. A call that stops on the guard has sampled a
run of 32 identical tokens (so 31 do not trigger it); no token is ever
sampled after a run of 32 is completed; a run of 32 completed by a token
that is not end-of-generation, below the length limit, stops the call on
the guard; and the token that completes the run is sampled but neither
printed nor appended to the response. *)
Theorem C2_stall_guard n_predict c prompt tr o :
  generate n_predict c prompt = (tr, o) ->
  (forall resp c',
     o = Returned resp STOP_STALL c' ->
     exists pre t, sampled tr = pre ++ repeat t 32) /\
  (forall pre t post,
     sampled tr = pre ++ repeat t 32 ++ post -> post = []) /\
  (forall pre t,
     sampled tr = pre ++ repeat t 32 ->
     llama_vocab_is_eog t = false ->
     Z.of_nat (List.length (sampled tr)) <= n_predict ->
     exists resp c', o = Returned resp STOP_STALL c') /\
  (forall resp c',
     o = Returned resp STOP_STALL c' ->
     exists front t,
       sampled tr = front ++ [t] /\
       emitted tr = map display front /\
       resp = concat_pieces (map display front)).
Proof.
  intros Hg.
  destruct (generate_history _ _ _ _ _ Hg) as (front & Hsum).
  pose proof Hsum as (He & Hp & Ho).
  split; [|split; [|split]].
  - intros resp c' ->. destruct Ho as (t & Hs & _ & Hf). cbn [app] in Hf.
    rewrite Hs. destruct Hf as [Hf | (_ & _ & _ & Hf)]; [|discriminate Hf].
    apply stop_check_some in Hf.
    destruct Hf as [(Hf & _) | [(Hf & _) | (_ & _ & _ & Hf)]];
      try discriminate Hf.
    apply stall_run_32. exact Hf.
  - intros pre t post Hs.
    destruct post as [|x post]; [reflexivity|]. exfalso.
    apply (passes_no_run n_predict pre t).
    apply (summary_inner _ _ _ _ _ _ (x :: post) Hsum); [|discriminate].
    rewrite Hs, <- app_assoc. reflexivity.
  - intros pre t Hs Heog Hlen.
    change (repeat t 32) with (repeat t (S 31)) in Hs.
    rewrite repeat_snoc, app_assoc in Hs.
    assert (Hrun : 32 <= snd (stall_of ((pre ++ repeat t 31) ++ [t]))).
    { rewrite <- app_assoc, <- repeat_snoc.
      pose proof (stall_of_repeat pre t 31) as (_ & Hge). lia. }
    assert (Hnot : forall f x,
               f ++ [x] = (pre ++ repeat t 31) ++ [t] ->
               stop_check n_predict x (Z.of_nat (List.length f))
                          (snd (stall_of (f ++ [x]))) <> None).
    { intros f x Hfx H. rewrite Hfx in H. apply stop_check_none in H. lia. }
    destruct o as [resp0 why0 c0 | status | cause |].
    + destruct Ho as (tl & Hs' & _ & Hf). cbn [app] in Hf.
      rewrite Hs' in Hs, Hlen. pose proof Hs as Hs2.
      apply app_inj_tail in Hs2. destruct Hs2 as (Hfront & ->).
      exists resp0, c0. f_equal.
      destruct Hf as [Hf | (Hf & _)]; [|destruct (Hnot _ _ Hs Hf)].
      rewrite Hs in Hf. rewrite length_app in Hlen. cbn in Hlen.
      unfold stop_check in Hf. rewrite Heog in Hf.
      destruct (_ >=? n_predict) eqn:H1; [lia|].
      destruct (_ >=? 32) eqn:H2; [|lia].
      injection Hf as <-. reflexivity.
    + exfalso. destruct Ho as [Hs' | (tl & Hs' & Hf)]; rewrite Hs' in Hs.
      * apply (passes_no_run n_predict pre t).
        apply (Hp (pre ++ repeat t 31) t []). exact Hs.
      * cbn [app] in Hf. exact (Hnot _ _ Hs Hf).
    + exfalso. destruct Ho as [Hs' | (tl & Hs' & Hf)]; rewrite Hs' in Hs.
      * apply (passes_no_run n_predict pre t).
        apply (Hp (pre ++ repeat t 31) t []). exact Hs.
      * cbn [app] in Hf. exact (Hnot _ _ Hs Hf).
    + exfalso. rewrite Ho in Hs.
      apply (passes_no_run n_predict pre t).
      apply (Hp (pre ++ repeat t 31) t []). exact Hs.
  - intros resp c' ->. destruct Ho as (t & Hs & Hr & _).
    exists front, t. auto.
Qed.

Lemma firstn_front {A} (front : list A) (t : A) :
  firstn (List.length front) (front ++ [t]) = front.
Proof.
  rewrite firstn_app, Nat.sub_diag, firstn_all. cbn. apply app_nil_r.
Qed.

(** C4: with [n_predict = n > 0], in a call that returns and in which no
sampled token is end-of-generation, no token comes 32 times in a row and
no ten suspicious pieces come in a row, the loop stops on the length
limit: [n + 1] tokens were sampled, the pieces of the first [n] were
printed and make up the response, and the last one was not printed. *)
Theorem C4_max_predict n_predict c prompt tr resp why c' :
  0 < n_predict ->
  generate n_predict c prompt = (tr, Returned resp why c') ->
  Forall (fun t => llama_vocab_is_eog t = false) (sampled tr) ->
  (forall pre t post, sampled tr <> pre ++ repeat t 32 ++ post) ->
  (forall pre run post,
     map display (sampled tr) = pre ++ run ++ post ->
     List.length run = 10%nat ->
     ~ Forall (fun p => suspicious p = true) run) ->
  why = STOP_MAXLEN /\
  Z.of_nat (List.length (emitted tr)) = n_predict /\
  Z.of_nat (List.length (sampled tr)) = n_predict + 1 /\
  emitted tr = map display (firstn (Z.to_nat n_predict) (sampled tr)) /\
  resp = concat_pieces (emitted tr).
Proof.
  intros Hn Hg Heog Hstall Hanom.
  destruct (generate_history _ _ _ _ _ Hg)
    as (front & He & Hp & t & Hs & Hr & Hf).
  cbn [app] in Hr, Hf.
  assert (Hle : Z.of_nat (List.length front) <= n_predict).
  { destruct front as [|x f] using rev_ind; [cbn; lia|]. clear IHf.
    destruct (Hp f x [] eq_refl) as (H & _).
    apply stop_check_none in H. rewrite length_app. cbn in *. lia. }
  assert (Hwhy : why = STOP_MAXLEN /\ n_predict <= Z.of_nat (List.length front)).
  { destruct Hf as [Hf | Hf].
    - apply stop_check_some in Hf.
      destruct Hf as [(_ & Hf) | [(-> & _ & Hf) | (_ & _ & _ & Hf)]].
      + rewrite Hs in Heog. apply Forall_app in Heog.
        destruct Heog as (_ & Heog). inversion Heog; subst. congruence.
      + split; [reflexivity | exact Hf].
      + apply stall_run_32 in Hf. destruct Hf as (pre & t' & Hf).
        exfalso. apply (Hstall pre t' []).
        rewrite app_nil_r, Hs. exact Hf.
    - assert (Hfin : final n_predict front t STOP_ANOMALY).
      { destruct Hf as (H1 & H2 & H3 & _). right. auto. }
      pose proof (final_anomaly _ _ _ Hp Hfin) as H10.
      destruct (anomaly_after_run (map display (front ++ [t])))
        as (pre & run & Hsplit & Hlen & Hall & _).
      exfalso. apply (Hanom pre run []); [|lia|exact Hall].
      rewrite app_nil_r, Hs. exact Hsplit. }
  destruct Hwhy as (-> & Hge).
  assert (Hlen : List.length front = Z.to_nat n_predict) by lia.
  split; [reflexivity|].
  rewrite He, Hs, length_map, length_app, <- Hlen, firstn_front.
  cbn [List.length].
  repeat split; try lia. exact Hr.
Qed.

End GenerateFacts.

(** ** Facts about the session driver *)

Section ChatFacts.

Context {ctx : Type} {E : Engine ctx} {T : ChatTemplate}.

Local Open Scope list_scope.

Lemma length_list_ascii_of_string (s : string) :
  List.length (list_ascii_of_string s) = String.length s.
Proof. induction s as [|a s IH]; cbn; [|rewrite IH]; reflexivity. Qed.

Lemma substring_list (s : string) : forall n m,
  substring n m s
  = string_of_list_ascii (firstn m (skipn n (list_ascii_of_string s))).
Proof.
  induction s as [|a s IH]; intros [|n] [|m]; cbn; try reflexivity.
  - rewrite IH. reflexivity.
  - rewrite IH. reflexivity.
  - rewrite IH. reflexivity.
Qed.

(** A buffer at least as long as the render holds the render at its
front. *)
Lemma render_into_front (buf : list ascii) (text : string) :
  (String.length text <= List.length buf)%nat ->
  firstn (String.length text) (render_into buf text)
  = list_ascii_of_string text.
Proof.
  intros H. unfold render_into.
  rewrite firstn_firstn, Nat.min_l by exact H.
  rewrite firstn_app, length_list_ascii_of_string, Nat.sub_diag.
  rewrite firstn_all2 by (rewrite length_list_ascii_of_string; lia).
  cbn. apply app_nil_r.
Qed.

Lemma length_resize (buf : list ascii) (n : Z) :
  List.length (resize buf n) = Z.to_nat n.
Proof.
  unfold resize. rewrite length_firstn, length_app, repeat_length. lia.
Qed.

(** Lines 223-228 when the template renders. *)
Lemma render_user_some (s : session ctx) user full :
  chat_render (messages s ++ [mkMsg "user" (c_str user)]) true = Some full ->
  exists fmt,
    render_user s user
    = (messages s ++ [mkMsg "user" (c_str user)],
       Some (Z.of_nat (String.length full), fmt)) /\
    firstn (String.length full) fmt = list_ascii_of_string full.
Proof.
  intros Hr. unfold render_user, llama_chat_apply_template. rewrite Hr.
  destruct (_ >? _) eqn:Hgt.
  - destruct (_ <? 0) eqn:Hneg; [apply Z.ltb_lt in Hneg; lia|].
    eexists. split; [reflexivity|].
    apply render_into_front. rewrite length_resize. lia.
  - eexists. split; [reflexivity|].
    apply render_into_front.
    pose proof (to_int_le (Z.of_nat (List.length (formatted s)))).
    rewrite Z.gtb_ltb in Hgt. apply Z.ltb_ge in Hgt. lia.
Qed.

(** Lines 223-228 when it does not: the test of line 225 is then
[-1 > (int)formatted.size()]. *)
Lemma render_user_none (s : session ctx) user :
  chat_render (messages s ++ [mkMsg "user" (c_str user)]) true = None ->
  render_user s user
  = (messages s ++ [mkMsg "user" (c_str user)],
     if -1 >? to_int (Z.of_nat (List.length (formatted s)))
     then None else Some (-1, formatted s)).
Proof.
  intros Hr. unfold render_user, llama_chat_apply_template. rewrite Hr.
  destruct (_ >? _); reflexivity.
Qed.

(** Line 235 on a buffer that holds the render at its front. *)
Lemma slice_front fmt full from :
  firstn (String.length full) fmt = list_ascii_of_string full ->
  0 <= from <= Z.of_nat (String.length full) ->
  slice fmt from (Z.of_nat (String.length full))
  = substring (Z.to_nat from) (String.length full - Z.to_nat from) full.
Proof.
  intros Hf Hr. unfold slice. rewrite substring_list, <- Hf.
  replace (Z.to_nat (Z.of_nat (String.length full) - from))
    with (String.length full - Z.to_nat from)%nat by lia.
  f_equal. rewrite !firstn_skipn_comm. f_equal.
  rewrite firstn_firstn. f_equal. lia.
Qed.

(** The renderer reports a failure by a negative length. *)
Lemma negative_render msgs add_ass (buf : list ascii) :
  fst (llama_chat_apply_template msgs add_ass buf) < 0 ->
  chat_render msgs add_ass = None.
Proof.
  unfold llama_chat_apply_template.
  destruct (chat_render msgs add_ass); [cbn; lia | reflexivity].
Qed.

(** Lines 224-232 when the render fails: line 229 is reached only when
the test of line 225 is false. *)
Lemma turn_render_failure n_predict (s : session ctx) user :
  chat_render (messages s ++ [mkMsg "user" (c_str user)]) true = None ->
  turn n_predict s user
  = if -1 >? to_int (Z.of_nat (List.length (formatted s)))
    then ([], inr (ProcAbort AbortVectorLength))
    else (template_failure, inr (ProcExit 1)).
Proof.
  intros Hr. unfold turn. rewrite (render_user_none _ _ Hr).
  destruct (_ >? _); reflexivity.
Qed.

(** A turn that ends the process ends the session. *)
Lemma chat_loop_turn_end n_predict (s : session ctx) user rest tr e :
  user <> ""%string ->
  turn n_predict s user = (tr, inr e) ->
  chat_loop n_predict (user :: rest) s
  = (EvStdout (ESC ++ "[32m> " ++ ESC ++ "[0m") :: tr, e).
Proof.
  intros Hne Ht. cbn [chat_loop].
  apply String.eqb_neq in Hne. rewrite Hne, Ht. reflexivity.
Qed.

(** X19: a negative length from the template is fatal for the session,
for a buffer [formatted] of less than 2^31 bytes. If the render of line
224 reports one, the turn writes the error to stderr and [main] returns 1
before [generate] is called; on a buffer of 2^31 to 2^32 - 2 bytes the
test of line 225 holds instead, and the process aborts in
[formatted.resize]. If the render of line 244, after the assistant message
was pushed, reports one, the turn writes the error and [main] returns 1
after the generation. And a turn that ends the process ends the session
the same way whatever lines of input remain. *)
Theorem template_failure_is_fatal
        n_predict (s : session ctx) (user : string) (rest : list string) :
  @template_failure ctx
  = [EvStderr ("failed to apply the chat template" ++ LF)%string] /\
  (fst (llama_chat_apply_template
          (messages s ++ [mkMsg "user" (c_str user)]) true (formatted s)) < 0 ->
   (Z.of_nat (List.length (formatted s)) < 2 ^ 31 ->
    turn n_predict s user = (template_failure, inr (ProcExit 1))) /\
   (2 ^ 31 <= Z.of_nat (List.length (formatted s)) <= 2 ^ 32 - 2 ->
    turn n_predict s user = ([], inr (ProcAbort AbortVectorLength)))) /\
  (forall msgs new_len fmt tr resp why c',
     render_user s user = (msgs, Some (new_len, fmt)) ->
     0 <= new_len -> prev_len s <= new_len ->
     generate n_predict (engine s) (slice fmt (prev_len s) new_len)
     = (tr, Returned resp why c') ->
     fst (llama_chat_apply_template
            (msgs ++ [mkMsg "assistant" (c_str resp)]) false []) < 0 ->
     turn n_predict s user
     = ((EvStdout (ESC ++ "[33m") :: tr)
          ++ [EvStdout (LF ++ ESC ++ "[0m")] ++ template_failure,
        inr (ProcExit 1))) /\
  (forall tr e,
     user <> ""%string ->
     turn n_predict s user = (tr, inr e) ->
     chat_loop n_predict (user :: rest) s
     = (EvStdout (ESC ++ "[32m> " ++ ESC ++ "[0m") :: tr, e)).
Proof.
  split; [reflexivity|]. split; [|split].
  - intros H. apply negative_render in H.
    rewrite (turn_render_failure _ _ _ H). split; intros Hsize.
    + rewrite to_int_small by lia.
      destruct (_ >? _) eqn:Hgt; [|reflexivity].
      rewrite Z.gtb_ltb in Hgt. apply Z.ltb_lt in Hgt. lia.
    + rewrite to_int_large by lia.
      destruct (_ >? _) eqn:Hgt; [reflexivity|].
      rewrite Z.gtb_ltb in Hgt. apply Z.ltb_ge in Hgt. lia.
  - intros msgs new_len fmt tr resp why c' Hru H0 Hprev Hg Hneg.
    unfold turn. rewrite Hru.
    destruct (new_len <? 0) eqn:H1; [lia|].
    destruct (new_len <? prev_len s) eqn:H2; [lia|].
    rewrite Hg.
    destruct (llama_chat_apply_template _ false []) as [len buf].
    cbn [fst] in Hneg.
    destruct (len <? 0) eqn:H3; [|lia].
    rewrite <- app_assoc. reflexivity.
  - intros tr e. apply chat_loop_turn_end.
Qed.

End ChatFacts.

(** ** The cursor across turns *)

Section Cursor.

Context {ctx : Type} {E : Engine ctx} {T : ChatTemplate}.

Local Open Scope list_scope.

Lemma length_append (a b : string) :
  String.length (a ++ b)%string = (String.length a + String.length b)%nat.
Proof. induction a as [|x a IH]; cbn; [|rewrite IH]; reflexivity. Qed.

Lemma append_only_length msgs extra add_ass base text :
  append_only ->
  chat_render msgs false = Some base ->
  chat_render (msgs ++ extra) add_ass = Some text ->
  (String.length base <= String.length text)%nat.
Proof.
  intros Happ H1 H2. destruct (Happ _ _ _ _ _ H1 H2) as (suffix & ->).
  rewrite length_append. lia.
Qed.

(** What a turn that completes leaves behind. *)
Lemma turn_done n_predict (s : session ctx) user tr s' :
  turn n_predict s user = (tr, inl s') ->
  exists full fmt resp why committed,
    chat_render (messages s ++ [mkMsg "user" (c_str user)]) true = Some full /\
    render_user s user
    = (messages s ++ [mkMsg "user" (c_str user)],
       Some (Z.of_nat (String.length full), fmt)) /\
    prev_len s <= Z.of_nat (String.length full) /\
    snd (generate n_predict (engine s)
           (slice fmt (prev_len s) (Z.of_nat (String.length full))))
    = Returned resp why (engine s') /\
    messages s'
    = messages s ++ [mkMsg "user" (c_str user);
                     mkMsg "assistant" (c_str resp)] /\
    chat_render (messages s') false = Some committed /\
    prev_len s' = Z.of_nat (String.length committed).
Proof.
  unfold turn.
  destruct (chat_render (messages s ++ [mkMsg "user" (c_str user)]) true)
    as [full|] eqn:Hr.
  2:{ rewrite (render_user_none _ _ Hr).
      destruct (_ >? _); cbn; discriminate. }
  destruct (render_user_some _ _ _ Hr) as (fmt & Hru & _). rewrite Hru.
  destruct (_ <? 0); [discriminate|].
  destruct (_ <? prev_len s) eqn:Hprev; [discriminate|].
  destruct (generate _ _ _) as [gtr o] eqn:Hg.
  destruct o as [resp why c' | | |]; try discriminate.
  unfold llama_chat_apply_template.
  destruct (chat_render _ false) as [committed|] eqn:Hc; [|discriminate].
  destruct (_ <? 0); [discriminate|].
  intros [= <- <-]. cbn.
  exists full, fmt, resp, why, committed.
  rewrite <- app_assoc in Hc. cbn [app] in Hc.
  rewrite <- app_assoc. cbn [app].
  repeat split; auto; try lia. rewrite Hg. reflexivity.
Qed.

(** The process never ends for lack of fuel: the loop of [generate] has
enough. *)
Lemma turn_has_fuel n_predict (s : session ctx) user :
  snd (turn n_predict s user) <> inr ProcOutOfFuel.
Proof.
  unfold turn.
  destruct (render_user s user) as [msgs [[new_len fmt]|]];
    [|cbn; discriminate].
  destruct (_ <? 0); [cbn; discriminate|].
  destruct (_ <? prev_len s); [cbn; discriminate|].
  pose proof (generate_terminates n_predict (engine s)
                (slice fmt (prev_len s) new_len)) as Hg.
  destruct (generate _ _ _) as [gtr o].
  destruct o as [resp why c' | status | cause |]; cbn in *;
    try discriminate; [|congruence].
  destruct (llama_chat_apply_template _ false []) as [len buf].
  destruct (len <? 0); cbn; discriminate.
Qed.

Lemma turn_cursor_ok n_predict (s : session ctx) user tr s' :
  turn n_predict s user = (tr, inl s') -> cursor_ok s'.
Proof.
  intros Ht.
  destruct (turn_done _ _ _ _ _ Ht)
    as (full & fmt & resp & why & committed & _ & _ & _ & _ & _ & Hc & Hp).
  right. exists committed. auto.
Qed.

Lemma reaches_cursor_ok n_predict (s s' : session ctx) :
  reaches n_predict s s' -> cursor_ok s -> cursor_ok s'.
Proof.
  induction 1 as [s | s user tr s1 s2 _ Ht _ IH]; intros Hok; [exact Hok|].
  apply IH. exact (turn_cursor_ok _ _ _ _ _ Ht).
Qed.

Lemma cursor_ok_nonneg (s : session ctx) : cursor_ok s -> 0 <= prev_len s.
Proof. intros [-> | (base & _ & ->)]; lia. Qed.

Lemma turn_monotone n_predict (s : session ctx) user tr s' :
  append_only ->
  cursor_ok s ->
  turn n_predict s user = (tr, inl s') ->
  prev_len s <= prev_len s'.
Proof.
  intros Happ Hok Ht.
  destruct (turn_done _ _ _ _ _ Ht)
    as (full & fmt & resp & why & committed & _ & _ & _ & _ & Hm & Hc & Hp).
  rewrite Hp. destruct Hok as [-> | (base & Hb & ->)]; [lia|].
  rewrite Hm in Hc.
  pose proof (append_only_length _ _ _ _ _ Happ Hb Hc). lia.
Qed.

Lemma reaches_monotone n_predict (s s' : session ctx) :
  append_only ->
  reaches n_predict s s' ->
  cursor_ok s ->
  prev_len s <= prev_len s'.
Proof.
  intros Happ.
  induction 1 as [s | s user tr s1 s2 _ Ht _ IH]; intros Hok; [lia|].
  pose proof (turn_monotone _ _ _ _ _ Happ Hok Ht).
  pose proof (IH (turn_cursor_ok _ _ _ _ _ Ht)). lia.
Qed.

(** C5: in every session a conversation reaches, for a line [user] whose
render is [full] (its length is [new_len]). The cursor is never negative.
When it is within the render, the prompt handed to [generate] is the
slice of [full] from [prev_len] to [new_len]. A turn that completes has
pushed the user and the assistant message and has set [prev_len] to the
length of the render of all of them without the generation suffix. And
when the template is append-only, as the specification assumes, the
cursor is within the render, the new [prev_len] is not below the old one,
and [prev_len] never decreases over the turns that follow. *)
Theorem C5_prompt_slice_and_cursor
        n_predict (c : ctx) (s : session ctx) (user full : string) :
  reaches n_predict (init_session c) s ->
  chat_render (messages s ++ [mkMsg "user" (c_str user)]) true = Some full ->
  let prompt :=
    substring (Z.to_nat (prev_len s))
              (String.length full - Z.to_nat (prev_len s)) full in
  0 <= prev_len s /\
  (prev_len s <= Z.of_nat (String.length full) ->
   exists rest,
     fst (turn n_predict s user)
     = EvStdout (ESC ++ "[33m")
         :: fst (generate n_predict (engine s) prompt) ++ rest) /\
  (forall tr s',
     turn n_predict s user = (tr, inl s') ->
     exists resp why committed,
       snd (generate n_predict (engine s) prompt)
       = Returned resp why (engine s') /\
       messages s'
       = messages s ++ [mkMsg "user" (c_str user);
                        mkMsg "assistant" (c_str resp)] /\
       chat_render (messages s') false = Some committed /\
       prev_len s' = Z.of_nat (String.length committed)) /\
  (append_only ->
   prev_len s <= Z.of_nat (String.length full) /\
   (forall tr s', turn n_predict s user = (tr, inl s') ->
                  prev_len s <= prev_len s') /\
   (forall s'', reaches n_predict s s'' -> prev_len s <= prev_len s'')).
Proof.
  intros Hreach Hr prompt.
  assert (Hinit : cursor_ok (init_session c)) by (left; reflexivity).
  pose proof (reaches_cursor_ok _ _ _ Hreach Hinit) as Hok.
  pose proof (cursor_ok_nonneg _ Hok) as Hge.
  destruct (render_user_some _ _ _ Hr) as (fmt & Hru & Hfmt).
  assert (Hslice : prev_len s <= Z.of_nat (String.length full) ->
                   slice fmt (prev_len s) (Z.of_nat (String.length full))
                   = prompt).
  { intros Hle. apply (slice_front _ _ _ Hfmt). lia. }
  split; [exact Hge|]. split; [|split].
  - intros Hle. unfold turn. rewrite Hru, (Hslice Hle).
    destruct (_ <? 0) eqn:H0; [lia|].
    destruct (_ <? prev_len s) eqn:H1; [lia|].
    destruct (generate _ _ _) as [gtr o].
    destruct o as [resp why c' | status | cause |]; cbn [fst].
    + destruct (llama_chat_apply_template _ false []) as [len buf].
      destruct (len <? 0); cbn [fst];
        rewrite <- ?app_assoc; eexists; reflexivity.
    + exists []. rewrite app_nil_r. reflexivity.
    + exists []. rewrite app_nil_r. reflexivity.
    + exists []. rewrite app_nil_r. reflexivity.
  - intros tr s' Ht.
    destruct (turn_done _ _ _ _ _ Ht)
      as (full' & fmt' & resp & why & committed
          & Hr' & Hru' & Hle & Hg & Hm & Hc & Hp).
    rewrite Hr in Hr'. injection Hr' as <-.
    rewrite Hru in Hru'. injection Hru' as <-.
    rewrite (Hslice Hle) in Hg.
    exists resp, why, committed. auto.
  - intros Happ. split; [|split].
    + destruct Hok as [-> | (base & Hb & ->)]; [lia|].
      pose proof (append_only_length _ _ _ _ _ Happ Hb Hr). lia.
    + intros tr s' Ht. exact (turn_monotone _ _ _ _ _ Happ Hok Ht).
    + intros s'' H. exact (reaches_monotone _ _ _ Happ H Hok).
Qed.

End Cursor.

(** ** The program on the scripted engine *)

Module ScriptedRuns.

Import Scripted.

Local Open Scope list_scope.

Lemma render_append_only msgs extra add_ass base text :
  render msgs false = Some base ->
  render (msgs ++ extra) add_ass = Some text ->
  exists suffix, text = (base ++ suffix)%string.
Proof.
  unfold render.
  destruct (existsb refused msgs); [discriminate|].
  destruct (existsb refused (msgs ++ extra)); [discriminate|].
  intros [= <-] [= <-].
  rewrite map_app, concat_pieces_app, append_nil_r, append_assoc.
  eexists. reflexivity.
Qed.

(** The scenario of section 8: "hello" is answered by "hi there" and an
end-of-generation token. *)
Example run_hi_there :
  let r := generate 256 (fresh 100 (bytes_of "hi there" ++ [257])) "hello" in
  returned (snd r) = Some ("hi there"%string, STOP_EOG) /\
  List.length (emitted (fst r)) = 8%nat.
Proof. split; vm_compute; reflexivity. Qed.

(** 31 identical tokens and then another one: the guard does not fire. *)
Example run_31_identical :
  returned
    (snd (generate 256
            (fresh 100 (repeat (tok "a") 31 ++ [tok "b"; 257])) "x"))
  = Some ((concat_pieces (repeat "a" 31) ++ "b")%string, STOP_EOG).
Proof. vm_compute. reflexivity. Qed.

(** 32 identical tokens: the guard fires on the 32nd, 31 were printed. *)
Example run_32_identical :
  let r := generate 256 (same_token 40) "x" in
  returned (snd r) = Some (concat_pieces (repeat "a"%string 31), STOP_STALL) /\
  List.length (sampled (fst r)) = 32%nat /\
  List.length (emitted (fst r)) = 31%nat.
Proof. repeat split; vm_compute; reflexivity. Qed.

(** Nine "(" and an end-of-generation token; ten "("; four "(", an "a"
and nine "(". *)
Example run_9_parens :
  returned
    (snd (generate 256 (fresh 100 (repeat (tok "(") 9 ++ [257])) "x"))
  = Some ("((((((((("%string, STOP_EOG).
Proof. vm_compute. reflexivity. Qed.

Example run_10_parens :
  returned (snd (generate 256 (parens 10) "x"))
  = Some ("((((((((("%string, STOP_ANOMALY).
Proof. vm_compute. reflexivity. Qed.

Example run_interleaved :
  returned
    (snd (generate 256
            (fresh 100 (repeat (tok "(") 4 ++ [tok "a"]
                        ++ repeat (tok "(") 9 ++ [257])) "x"))
  = Some ("((((a((((((((("%string, STOP_EOG).
Proof. vm_compute. reflexivity. Qed.

(** The first turn of a session asks for the beginning-of-sequence marker,
the second does not. *)
Example run_two_turns :
  tokenized (fst (chat 3 (engine session_start) ["hi"; "yo"]))
  = [("<user>hi;<assistant>"%string, 0, true, true);
     ("<user>hi;<assistant>"%string, 21, true, true);
     ("<user>yo;<assistant>"%string, 0, false, true);
     ("<user>yo;<assistant>"%string, 20, false, true)].
Proof. vm_compute. reflexivity. Qed.

End ScriptedRuns.

(** ** The statements at concrete inputs *)

Local Open Scope list_scope.


(** C2 on 32 identical tokens. *)
Lemma C2_stall_witness :
  let r := generate 256 (Scripted.same_token 32) "x" in
  sampled (fst r) = repeat (Scripted.tok "a") 32 /\
  exists resp c', snd r = Returned resp STOP_STALL c'.
Proof.
  intros r.
  assert (Hs : sampled (fst r) = [] ++ repeat (Scripted.tok "a") 32)
    by (vm_compute; reflexivity).
  split; [exact Hs|].
  destruct (C2_stall_guard 256 (Scripted.same_token 32) "x" (fst r) (snd r)
              (surjective_pairing r)) as (_ & _ & H & _).
  apply (H [] (Scripted.tok "a") Hs).
  - reflexivity.
  - rewrite Hs. vm_compute. discriminate.
Defined.

(** C3 on ten "(": nine are printed, then the diagnostic. *)
Lemma C3_anomaly_witness :
  let r := generate 256 (Scripted.parens 10) "x" in
  snd r = Returned "(((((((((" STOP_ANOMALY (Scripted.mkS 100 10 []) /\
  exists tr0 t,
    fst r
    = tr0 ++ EvSample t
        :: [ EvStdout (LF ++ LF ++ "🚨 [模型质量警告] 🚨" ++ LF);
             EvStdout ("检测到模型输出异常字符。这通常表明:" ++ LF);
             EvStdout ("• 模型文件可能损坏或质量不佳" ++ LF);
             EvStdout ("• 建议尝试其他GGUF模型文件" ++ LF);
             EvStdout ("• 或者检查模型是否与llama.cpp兼容" ++ LF ++ LF) ]%string /\
    anomaly_after (emitted (fst r) ++ [display t]) = 10 /\
    stdout_of (fst r)
    = (concat_pieces (map c_str (emitted (fst r)))
         ++ LF ++ LF ++ "🚨 [模型质量警告] 🚨" ++ LF
         ++ "检测到模型输出异常字符。这通常表明:" ++ LF
         ++ "• 模型文件可能损坏或质量不佳" ++ LF
         ++ "• 建议尝试其他GGUF模型文件" ++ LF
         ++ "• 或者检查模型是否与llama.cpp兼容" ++ LF ++ LF)%string.
Proof.
  intros r.
  assert (Hr : snd r = Returned "(((((((((" STOP_ANOMALY
                                (Scripted.mkS 100 10 []))
    by (vm_compute; reflexivity).
  split; [exact Hr|].
  pose proof (C3_anomaly_counter (E := Scripted.scripted_engine)) as H.
  cbv zeta in H. destruct H as (_ & _ & _ & _ & _ & H & _).
  destruct (H 256 (Scripted.parens 10) "x"%string (fst r) (snd r)
              (surjective_pairing r)) as (_ & Hstop).
  exact (Hstop _ _ Hr).
Defined.

(** C4 with [n_predict = 3] and a model that goes on with "abcd". *)
Lemma C4_max_predict_witness :
  let r := generate 3 Scripted.letters "zz" in
  snd r = Returned "abc" STOP_MAXLEN (Scripted.mkS 100 5 []) /\
  Z.of_nat (List.length (emitted (fst r))) = 3 /\
  Z.of_nat (List.length (sampled (fst r))) = 3 + 1.
Proof.
  intros r.
  assert (Hs : sampled (fst r) = map Scripted.tok ["a"; "b"; "c"; "d"]%char)
    by (vm_compute; reflexivity).
  assert (Hr : r = (fst r, Returned "abc" STOP_MAXLEN (Scripted.mkS 100 5 [])))
    by (vm_compute; reflexivity).
  assert (Hlen : forall A (a b d : list A) k,
             List.length b = k -> List.length (a ++ b ++ d) = 4%nat ->
             (k <= 4)%nat).
  { intros A a b d k <- H. rewrite !length_app in H. lia. }
  split; [rewrite Hr at 1; reflexivity|].
  destruct (C4_max_predict 3 Scripted.letters "zz" (fst r) "abc"
              STOP_MAXLEN (Scripted.mkS 100 5 [])) as (_ & H1 & H2 & _).
  - lia.
  - exact Hr.
  - rewrite Hs. repeat constructor.
  - intros pre t post H. rewrite Hs in H.
    apply (f_equal (@List.length _)) in H.
    pose proof (Hlen _ pre (repeat t 32) post 32%nat (repeat_length _ _)
                  (eq_sym H)). lia.
  - intros pre run post H Hrun _. rewrite Hs in H.
    apply (f_equal (@List.length _)) in H.
    pose proof (Hlen _ pre run post 10%nat Hrun (eq_sym H)). lia.
  - split; assumption.
Defined.

(** C5 on the second turn of a session: after "hi" was answered by "ab"
the cursor is 23 and the prompt for "yo" is the rest of the render. *)
Lemma C5_cursor_witness :
  let s := Scripted.session_after_hi in
  let full := "<user>hi;<assistant>ab;<user>yo;<assistant>"%string in
  let prompt := substring 23 (String.length full - 23) full in
  prev_len s = 23 /\
  prompt = "<user>yo;<assistant>"%string /\
  0 <= prev_len s <= Z.of_nat (String.length full) /\
  (exists rest,
     fst (turn 3 s "yo")
     = EvStdout (ESC ++ "[33m") :: fst (generate 3 (engine s) prompt) ++ rest) /\
  (forall s', reaches 3 s s' -> prev_len s <= prev_len s').
Proof.
  intros s full prompt.
  split; [reflexivity|]. split; [reflexivity|].
  assert (Hreach : reaches 3 (init_session (engine Scripted.session_start)) s).
  { apply (reaches_turn 3 Scripted.session_start "hi"
             (fst (turn 3 Scripted.session_start "hi")) s s).
    - discriminate.
    - vm_compute. reflexivity.
    - apply reaches_refl. }
  destruct (C5_prompt_slice_and_cursor
              (T := Scripted.scripted_template) 3
              (engine Scripted.session_start) s "yo" full Hreach)
    as (H1 & H2 & _ & H4).
  - vm_compute. reflexivity.
  - destruct (H4 ScriptedRuns.render_append_only) as (Hle & _ & Hmono).
    split; [split; [exact H1 | exact Hle]|].
    split; [exact (H2 Hle) | exact Hmono].
Defined.

(** C5 with a template that is not append-only: after "hi" the cursor is
5, after "yo" it is 3, and for a third line the render has length 0: the
cursor has gone down, it is beyond the render, and the turn has no slice
to take. *)
Lemma C5_cursor_counterexample :
  let s0 := Scripted.forgetful_start in
  let s1 := Scripted.forgetful_after_hi in
  let s2 := Scripted.forgetful_after_yo in
  reaches (T := Scripted.forgetful_template) 3 (init_session (engine s0)) s1 /\
  reaches (T := Scripted.forgetful_template) 3 s1 s2 /\
  prev_len s1 = 5 /\ prev_len s2 = 3 /\
  prev_len s2 < prev_len s1 /\
  @chat_render Scripted.forgetful_template
    (messages s2 ++ [mkMsg "user" (c_str "ok")]) true = Some ""%string /\
  Z.of_nat (String.length "") < prev_len s2 /\
  turn (T := Scripted.forgetful_template) 3 s2 "ok"
  = ([], inr (ProcAbort AbortStringRange)).
Proof.
  intros s0 s1 s2.
  assert (H1 : reaches (T := Scripted.forgetful_template) 3 s0 s1).
  { apply (reaches_turn (T := Scripted.forgetful_template) 3 s0 "hi"
             (fst (turn (T := Scripted.forgetful_template) 3 s0 "hi")) s1 s1).
    - discriminate.
    - vm_compute. reflexivity.
    - apply reaches_refl. }
  assert (H2 : reaches (T := Scripted.forgetful_template) 3 s1 s2).
  { apply (reaches_turn (T := Scripted.forgetful_template) 3 s1 "yo"
             (fst (turn (T := Scripted.forgetful_template) 3 s1 "yo")) s2 s2).
    - discriminate.
    - vm_compute. reflexivity.
    - apply reaches_refl. }
  split; [exact H1|]. split; [exact H2|].
  repeat split; vm_compute; reflexivity.
Qed.

(** C7 on the session [main] starts with on a context of 2^31 positions
(the command line "-c -2147483648" asks for one), with a first line the
template refuses: the render returns -1, [(int)formatted.size()] is
-2^31, the test of line 225 holds, and the process aborts in
[formatted.resize(-1)] with neither the message nor the status 1 of lines
230-231. *)
Theorem C7_template_failure_at_large_buffer :
  let s := Scripted.large_start in
  Z.of_nat (List.length (formatted s)) = 2 ^ 31 /\
  to_int (Z.of_nat (List.length (formatted s))) = - 2 ^ 31 /\
  fst (llama_chat_apply_template
         (messages s ++ [mkMsg "user" (c_str "#")]) true (formatted s)) = -1 /\
  turn 3 s "#" = ([], inr (ProcAbort AbortVectorLength)) /\
  chat_loop 3 ["#"%string; "hi"%string] s
  = ([EvStdout (ESC ++ "[32m> " ++ ESC ++ "[0m")],
     ProcAbort AbortVectorLength) /\
  snd (main (H := ScriptedHost.scripted_host) "chat"
            ["-m"; "ab"; "-c"; "-2147483648"]%string
            ["#"%string; "hi"%string])
  = ProcAbort AbortVectorLength.
Proof.
  intros s.
  assert (Hlen : Z.of_nat (List.length (formatted s)) = 2 ^ 31).
  { unfold s, Scripted.large_start, init_session. cbn [formatted].
    rewrite repeat_length.
    change (llama_n_ctx (Scripted.fresh (2 ^ 31) (Scripted.bytes_of "ab")))
      with (2 ^ 31).
    apply Z2Nat.id. discriminate. }
  assert (Hint : to_int (Z.of_nat (List.length (formatted s))) = - 2 ^ 31)
    by (rewrite Hlen; reflexivity).
  assert (Hr : chat_render (messages s ++ [mkMsg "user" (c_str "#")]) true
               = None) by reflexivity.
  assert (Ht : turn 3 s "#" = ([], inr (ProcAbort AbortVectorLength))).
  { rewrite (turn_render_failure _ _ _ Hr), Hint. reflexivity. }
  assert (Hl : chat_loop 3 ["#"%string; "hi"%string] s
               = ([EvStdout (ESC ++ "[32m> " ++ ESC ++ "[0m")],
                  ProcAbort AbortVectorLength)).
  { apply (chat_loop_turn_end 3 s "#" ["hi"%string] _ _); [discriminate|].
    exact Ht. }
  split; [exact Hlen|]. split; [exact Hint|]. split.
  { unfold llama_chat_apply_template. rewrite Hr. reflexivity. }
  split; [exact Ht|]. split; [exact Hl|].
  unfold main.
  match goal with |- context [CommandLine.parse_args ?f ?a ?b] =>
    assert (Hp : CommandLine.parse_args (ctx := Scripted.sctx) f a b
                 = ([], inl (CommandLine.mkOptions "ab" 99 (- 2 ^ 31) 256)))
      by (vm_compute; reflexivity);
    rewrite Hp end.
  match goal with |- context [llama_model_load_from_file ?a ?b] =>
    assert (Hm : llama_model_load_from_file a b
                 = Some (Scripted.bytes_of "ab"))
      by (vm_compute; reflexivity);
    rewrite Hm end.
  match goal with |- context [llama_init_from_model ?m ?a ?b] =>
    assert (Hc : llama_init_from_model m a b
                 = Some (Scripted.fresh (2 ^ 31) (Scripted.bytes_of "ab")))
      by (vm_compute; reflexivity);
    rewrite Hc end.
  unfold chat.
  match goal with |- context [@chat_loop ?c ?e ?t ?n ?l ?s0] =>
    change (@chat_loop c e t n l s0)
      with (chat_loop 256 ["#"%string; "hi"%string] s) end.
  assert (Hl' : chat_loop 256 ["#"%string; "hi"%string] s
                = ([EvStdout (ESC ++ "[32m> " ++ ESC ++ "[0m")],
                   ProcAbort AbortVectorLength)).
  { apply (chat_loop_turn_end 256 s "#" ["hi"%string] _ _); [discriminate|].
    rewrite (turn_render_failure _ _ _ Hr), Hint. reflexivity. }
  rewrite Hl'. reflexivity.
Qed.

(** C8 on twelve "(". *)
Lemma C8_anomaly_witness :
  exists tr0 front t,
    fst (generate 256 (Scripted.parens 12) "x")
    = tr0 ++ EvSample t :: quality_warning /\
    sampled (fst (generate 256 (Scripted.parens 12) "x")) = front ++ [t] /\
    List.length front = 9%nat.
Proof.
  destruct (C8_anomaly_piece_not_output 256 (Scripted.parens 12) "x"
              (fst (generate 256 (Scripted.parens 12) "x"))
              "((((((((("%string (Scripted.mkS 100 10 (repeat 40 2)))
    as (tr0 & front & t & H1 & H2 & _ & H4 & _).
  - vm_compute. reflexivity.
  - exists tr0, front, t. split; [exact H1|]. split; [exact H2|].
    apply (f_equal (@List.length _)) in H4.
    rewrite length_map in H4. rewrite <- H4. vm_compute. reflexivity.
Defined.

(** C9 with [n_predict = 0]: one decode of the prompt, one sample, nothing
printed. *)
Lemma C9_zero_witness :
  let r := generate 0 Scripted.letters "zz" in
  let c' := Scripted.mkS 100 2 (map Scripted.tok ["b"; "c"; "d"]%char) in
  prompt_tokens Scripted.letters "zz" = [256; 122; 122] /\
  snd r = Returned "" STOP_MAXLEN c' /\
  emitted (fst r) = [] /\
  decoded (fst r) = [(Scripted.letters, prompt_tokens Scripted.letters "zz")] /\
  exists t,
    sampled (fst r) = [t] /\
    STOP_MAXLEN = if llama_vocab_is_eog t then STOP_EOG else STOP_MAXLEN.
Proof.
  intros r c'.
  assert (Hr : snd r = Returned "" STOP_MAXLEN c')
    by (vm_compute; reflexivity).
  split; [vm_compute; reflexivity|]. split; [exact Hr|].
  destruct (C9_nonpositive_max_predict 0 Scripted.letters "zz"
              (fst r) (snd r)) as (H1 & _ & _ & H4).
  - lia.
  - apply surjective_pairing.
  - split; [exact H1|]. exact (proj2 (H4 _ _ _ Hr)).
Defined.

(** C10: nine "(", an empty piece and nine "(" leave the counter at 9;
the pass that prints an empty piece leaves it at 0. *)
Lemma C10_empty_piece_witness :
  anomaly_after (repeat "("%string 9 ++ ""%string :: repeat "("%string 9) = 9 /\
  anomaly_count
    (advance (mkGen [40] 40 5 5 5 "(((((") 258 (E := Scripted.scripted_engine)) = 0.
Proof.
  destruct (C10_empty_piece_resets (E := Scripted.scripted_engine))
    as (_ & _ & _ & Hstep & _ & Hrun).
  split.
  - apply (Hrun (repeat "("%string 9) (repeat "("%string 9)).
    repeat constructor.
  - apply (Hstep 256 (Scripted.mkS 100 7 [258]) (mkGen [40] 40 5 5 5 "(((((")
             [EvDecode (Scripted.mkS 100 7 [258]) [40]; EvSample 258;
              EvStdout ""; EvPiece ""]
             (Scripted.mkS 100 8 [])).
    + reflexivity.
    + reflexivity.
Defined.

(** ** Facts about the command line *)

Module CommandLineFacts.

Import CommandLine.

Section ParseFacts.

Context {ctx : Type}.

Variable stoi : string -> stoi_result.

Local Open Scope list_scope.

Local Abbreviation parse_loop := (parse_loop (ctx := ctx) stoi).
Local Abbreviation parse_args := (parse_args (ctx := ctx) stoi).

(** Arguments are read two at a time. *)
Lemma pair_ind (P : list string -> Prop) :
  P [] -> (forall a, P [a]) ->
  (forall a v rest, P rest -> P (a :: v :: rest)) ->
  forall l, P l.
Proof.
  intros H0 H1 H2 l.
  assert (H : P l /\ forall a, P (a :: l)).
  { induction l as [|x l [IH1 IH2]]; split; auto. }
  apply H.
Qed.

Lemma parse_single argv0 a o :
  parse_loop argv0 [a] o = (print_usage argv0, inr 1).
Proof.
  cbn. destruct (a =? "-m")%string; [reflexivity|].
  destruct (a =? "-c")%string; [reflexivity|].
  destruct (a =? "-ngl")%string; [reflexivity|].
  destruct (a =? "-n")%string; reflexivity.
Qed.

Lemma parse_accept argv0 a v rest o o' :
  option_step stoi o a v o' ->
  parse_loop argv0 (a :: v :: rest) o = parse_loop argv0 rest o'.
Proof.
  intros [v' | v' k Hk | v' k Hk | v' k Hk]; cbn; rewrite ?Hk; reflexivity.
Qed.

Lemma parse_pair argv0 a v o :
  (exists o', option_step stoi o a v o') \/
  (exists tr, rejected argv0 tr /\
              forall rest, parse_loop argv0 (a :: v :: rest) o = (tr, inr 1)).
Proof.
  destruct (a =? "-m")%string eqn:Hm.
  { apply String.eqb_eq in Hm. subst a. left. eexists. constructor. }
  destruct (a =? "-c")%string eqn:Hc.
  { apply String.eqb_eq in Hc. subst a.
    destruct (stoi v) as [k|what] eqn:Hv.
    - left. eexists. apply StepCtx. exact Hv.
    - right. exists (stoi_failure argv0 what).
      split; [right; eexists; reflexivity|].
      intros rest. cbn. rewrite Hv. reflexivity. }
  destruct (a =? "-ngl")%string eqn:Hg.
  { apply String.eqb_eq in Hg. subst a.
    destruct (stoi v) as [k|what] eqn:Hv.
    - left. eexists. apply StepNgl. exact Hv.
    - right. exists (stoi_failure argv0 what).
      split; [right; eexists; reflexivity|].
      intros rest. cbn. rewrite Hv. reflexivity. }
  destruct (a =? "-n")%string eqn:Hn.
  { apply String.eqb_eq in Hn. subst a.
    destruct (stoi v) as [k|what] eqn:Hv.
    - left. eexists. apply StepPredict. exact Hv.
    - right. exists (stoi_failure argv0 what).
      split; [right; eexists; reflexivity|].
      intros rest. cbn. rewrite Hv. reflexivity. }
  right. exists (print_usage argv0). split; [left; reflexivity|].
  intros rest. cbn. rewrite Hm, Hc, Hg, Hn. reflexivity.
Qed.

(** The loop either accepts, silently, or rejects with status 1. *)
Lemma parse_loop_result argv0 args : forall o tr r,
  parse_loop argv0 args o = (tr, r) ->
  (exists o', r = inl o' /\ tr = []) \/ (r = inr 1 /\ rejected argv0 tr).
Proof.
  induction args as [|a|a v rest IH] using pair_ind; intros o tr r.
  - intros [= <- <-]. left. eauto.
  - rewrite parse_single. intros [= <- <-]. right. split; [|left]; reflexivity.
  - destruct (parse_pair argv0 a v o) as [(o' & Hs) | (tr' & Hrej & Hf)].
    + rewrite (parse_accept _ _ _ _ _ _ Hs). apply IH.
    + rewrite Hf. intros [= <- <-]. right. split; [reflexivity | exact Hrej].
Qed.

(** X1: a command line that is not accepted makes [main] return 1, and
what was printed is the usage text, preceded by the line "error: ..." on
stderr when [std::stoi] threw, and nothing else. *)
Theorem rejected_prints_usage argv0 args tr status :
  parse_args argv0 args = (tr, inr status) ->
  status = 1 /\ rejected argv0 tr.
Proof.
  unfold CommandLine.parse_args.
  destruct (parse_loop argv0 args defaults) as [tr0 r] eqn:Hl.
  destruct (parse_loop_result _ _ _ _ _ Hl)
    as [(o' & -> & ->) | (-> & Hrej)].
  - destruct (model_path o' =? "")%string; [|discriminate].
    intros [= <- <-]. split; [reflexivity | left; reflexivity].
  - intros [= <- <-]. split; [reflexivity | exact Hrej].
Qed.

(** What the loop has done when it accepts. *)
Lemma parse_loop_accepted argv0 args : forall o tr o',
  parse_loop argv0 args o = (tr, inl o') ->
  Nat.even (List.length args) = true /\
  (model_path o' = model_path o \/ In "-m"%string args) /\
  (~ In "-c"%string args -> n_ctx o' = n_ctx o) /\
  (~ In "-ngl"%string args -> ngl o' = ngl o) /\
  (~ In "-n"%string args -> n_predict o' = n_predict o).
Proof.
  induction args as [|a|a v rest IH] using pair_ind; intros o tr o'.
  - intros [= <- <-]. repeat split; auto.
  - rewrite parse_single. discriminate.
  - destruct (parse_pair argv0 a v o) as [(o1 & Hs) | (tr' & _ & Hf)];
      [|rewrite Hf; discriminate].
    rewrite (parse_accept _ _ _ _ _ _ Hs). intros Hl.
    destruct (IH _ _ _ Hl) as (He & Hm & Hc & Hg & Hn).
    split; [exact He|].
    assert (Hkeep : forall (f : string) (x y z : Z),
               (~ In f rest -> x = y) -> (a = f \/ y = z) ->
               ~ In f (a :: v :: rest) -> x = z).
    { intros f x y z Hrest [Ha | Hy] Hnot.
      - exfalso. apply Hnot. left. exact Ha.
      - rewrite <- Hy. apply Hrest. intros Hin. apply Hnot.
        right. right. exact Hin. }
    split.
    { destruct Hs; cbn [model_path] in Hm;
        try (right; left; reflexivity);
        (destruct Hm as [Hm | Hm];
         [left; exact Hm | right; right; right; exact Hm]). }
    split; [apply (Hkeep _ _ _ _ Hc) | split;
            [apply (Hkeep _ _ _ _ Hg) | apply (Hkeep _ _ _ _ Hn)]];
      destruct Hs; cbn; auto.
Qed.

(** X2: a command line that is accepted has printed nothing, has named a
model path that is not empty with "-m", has an even number of arguments,
and leaves at its default (2048, 99, 256) every option whose flag occurs
nowhere in it. *)
Theorem accepted_options argv0 args tr o :
  parse_args argv0 args = (tr, inl o) ->
  tr = [] /\
  model_path o <> ""%string /\
  In "-m"%string args /\
  Nat.even (List.length args) = true /\
  (~ In "-c"%string args -> n_ctx o = 2048) /\
  (~ In "-ngl"%string args -> ngl o = 99) /\
  (~ In "-n"%string args -> n_predict o = 256).
Proof.
  unfold CommandLine.parse_args.
  destruct (parse_loop argv0 args defaults) as [tr0 r] eqn:Hl.
  destruct r as [o'|status]; [|discriminate].
  destruct (model_path o' =? "")%string eqn:Hp; [discriminate|].
  intros [= <- <-].
  destruct (parse_loop_result _ _ _ _ _ Hl)
    as [(o1 & _ & ->) | (Hr & _)]; [|discriminate].
  apply String.eqb_neq in Hp.
  destruct (parse_loop_accepted _ _ _ _ _ Hl) as (He & Hm & Hc & Hg & Hn).
  split; [reflexivity|]. split; [exact Hp|].
  split; [destruct Hm as [Hm | Hm]; [cbn in Hm; congruence | exact Hm]|].
  split; [exact He|]. auto.
Qed.

Lemma parse_loop_app argv0 a1 a2 : forall o tr o1,
  parse_loop argv0 a1 o = (tr, inl o1) ->
  parse_loop argv0 (a1 ++ a2) o = parse_loop argv0 a2 o1.
Proof.
  induction a1 as [|a|a v rest IH] using pair_ind; intros o tr o1.
  - intros [= <- <-]. reflexivity.
  - rewrite parse_single. discriminate.
  - destruct (parse_pair argv0 a v o) as [(o' & Hs) | (tr' & _ & Hf)];
      [|rewrite Hf; discriminate].
    cbn [app]. rewrite !(parse_accept _ _ _ _ _ _ Hs). apply IH.
Qed.

(** X3: options are read left to right and a later one replaces an
earlier one: after an accepted list of arguments the loop goes on from
the options that list gave, so that an accepted list followed by [flag
value] gives the same options with that one replaced. *)
Theorem later_option_wins argv0 a1 o tr o1 :
  parse_loop argv0 a1 o = (tr, inl o1) ->
  (forall a2, parse_loop argv0 (a1 ++ a2) o = parse_loop argv0 a2 o1) /\
  (forall flag v o2,
     option_step stoi o1 flag v o2 ->
     parse_loop argv0 (a1 ++ [flag; v]) o = ([], inl o2)).
Proof.
  intros Hl. split.
  - intros a2. exact (parse_loop_app _ _ _ _ _ _ Hl).
  - intros flag v o2 Hs.
    rewrite (parse_loop_app _ _ _ _ _ _ Hl).
    rewrite (parse_accept _ _ _ _ _ _ Hs). reflexivity.
Qed.

(** X4: one more argument after an accepted command line, whatever it
is, gets it rejected with the usage text: a flag without its value and an
unknown argument end the same way. *)
Theorem one_more_argument_rejected argv0 args tr o extra :
  parse_args argv0 args = (tr, inl o) ->
  parse_args argv0 (args ++ [extra]) = (print_usage argv0, inr 1).
Proof.
  unfold CommandLine.parse_args.
  destruct (parse_loop argv0 args defaults) as [tr0 r] eqn:Hl.
  destruct r as [o'|status]; [|discriminate].
  intros _.
  rewrite (parse_loop_app _ _ [extra] _ _ _ Hl), parse_single. reflexivity.
Qed.

End ParseFacts.

End CommandLineFacts.

(** ** More about [generate] *)

Section GenerateMore.

Context {ctx : Type} {E : Engine ctx}.

Local Open Scope list_scope.

Ltac pass_cases n c st :=
  let r := fresh "r" in
  let Hr := fresh "Hr" in
  remember (iteration n c st) as r eqn:Hr;
  symmetry in Hr; apply iteration_cases in Hr;
  destruct Hr.

Lemma stderr_of_app (a b : list (event ctx)) :
  stderr_of (a ++ b) = stderr_of a ++ stderr_of b.
Proof.
  induction a as [|[] a IH]; cbn; rewrite ?IH; reflexivity.
Qed.

(** A call is the two tokenizer calls and then, unless the tokenizer
failed, the loop from the prompt batch. *)
Lemma generate_cases n_predict c prompt tr o :
  generate n_predict c prompt = (tr, o) ->
  exists pre evs,
    tr = pre ++ evs /\
    emitted pre = [] /\ sampled pre = [] /\ decoded pre = [] /\
    ((evs = [] /\ stderr_of pre = [] /\ o = Aborted AbortVectorLength)
     \/ (evs = [] /\
         stderr_of pre
         = [ggml_abort 118 ("failed to tokenize the prompt" ++ LF)%string] /\
         o = Aborted AbortTokenize)
     \/ (stderr_of pre = [] /\
         loop (S (Z.to_nat n_predict)) n_predict c
              (init_state (prompt_tokens c prompt)) = (evs, o))).
Proof.
  unfold generate, prompt_tokens.
  destruct (_ <? 0).
  { intros [= <- <-]. eexists [_], [].
    do 4 (split; [reflexivity|]). left. repeat split. }
  destruct (llama_tokenize prompt (to_int _) _ _) as [ret written].
  destruct (ret <? 0).
  { intros [= <- <-]. eexists [_; _; _], [].
    do 4 (split; [reflexivity|]). right. left. repeat split. }
  destruct (loop _ _ _ _) as [evs o'] eqn:Hl. intros [= <- <-].
  eexists [_; _], evs.
  do 4 (split; [reflexivity|]). right. right. split; reflexivity.
Qed.

Lemma loop_counts n_predict fuel : forall c st tr o,
  loop fuel n_predict c st = (tr, o) ->
  (List.length (emitted tr) <= List.length (sampled tr)
   <= List.length (decoded tr))%nat /\
  (List.length (decoded tr) <= S (List.length (emitted tr)))%nat /\
  (forall resp why c',
     o = Returned resp why c' ->
     List.length (sampled tr) = S (List.length (emitted tr)) /\
     List.length (decoded tr) = List.length (sampled tr)).
Proof.
  induction fuel as [|fuel IH]; intros c st tr o; cbn [loop].
  { intros [= <- <-]. cbn. repeat split; try lia. discriminate. }
  pass_cases n_predict c st.
  1-5: intros [= <- <-];
       unfold overflow_notice, quality_warning, abort_message; cbn;
       repeat split; try lia; discriminate.
  destruct (loop fuel n_predict c2 (advance st tok)) as [tr' o'] eqn:Hl.
  intros [= <- <-]. destruct (IH _ _ _ _ Hl) as (Ha & Hb & Hc).
  cbn. split; [lia|]. split; [lia|].
  intros resp why c' Ho. destruct (Hc _ _ _ Ho). lia.
Qed.

Lemma loop_response n_predict fuel : forall c st tr resp why c',
  loop fuel n_predict c st = (tr, Returned resp why c') ->
  resp = (response st ++ concat_pieces (emitted tr))%string.
Proof.
  induction fuel as [|fuel IH]; intros c st tr resp why c'; cbn [loop];
    [discriminate|].
  pass_cases n_predict c st; try discriminate.
  - intros [= <- <- _ _]. cbn. rewrite append_nil_r. reflexivity.
  - intros [= <- <- _]. unfold quality_warning. cbn.
    rewrite append_nil_r. reflexivity.
  - destruct (loop fuel n_predict c2 (advance st tok)) as [tr' o'] eqn:Hl.
    intros [= <- ->]. rewrite (IH _ _ _ _ _ _ Hl). cbn.
    rewrite append_assoc. reflexivity.
Qed.

(** A text without NUL is printed whole. *)
Lemma c_str_whole (text : string) :
  ~ In NUL (list_ascii_of_string text) -> c_str text = text.
Proof.
  induction text as [|a text IH]; cbn [c_str list_ascii_of_string In];
    [reflexivity|].
  intros H. destruct (a =? NUL)%char eqn:Ha.
  - apply Ascii.eqb_eq in Ha. exfalso. apply H. left. exact Ha.
  - rewrite IH; [reflexivity|]. intros Hin. apply H. right. exact Hin.
Qed.

Lemma map_c_str_whole (pieces : list string) :
  Forall (fun p => ~ In NUL (list_ascii_of_string p)) pieces ->
  map c_str pieces = pieces.
Proof.
  induction 1 as [|p ps Hp _ IH]; cbn; [reflexivity|].
  rewrite IH, (c_str_whole _ Hp). reflexivity.
Qed.

(** X5: what is returned and what was printed. In a call that returns,
the response is the concatenation of the pieces of the passes that got to
lines 189-191, in order, whole; what the call wrote to stdout is the same
pieces, each cut at its first NUL byte, followed by the diagnostic when
the call stops on the anomaly counter. So the response is what was printed
when no piece holds a NUL byte and the call does not end on the
diagnostic. One token more was sampled than pieces were printed, and there
were as many decodes as samples. In every call, however it ends, the
pieces printed never outnumber the samples, nor the samples the decodes,
and there is at most one decode more than pieces printed. *)
Theorem response_and_printed_text n_predict c prompt tr o :
  generate n_predict c prompt = (tr, o) ->
  (List.length (emitted tr) <= List.length (sampled tr)
   <= List.length (decoded tr))%nat /\
  (List.length (decoded tr) <= S (List.length (emitted tr)))%nat /\
  (forall resp why c',
     o = Returned resp why c' ->
     resp = concat_pieces (emitted tr) /\
     stdout_of tr
     = (concat_pieces (map c_str (emitted tr))
          ++ (match why with
              | STOP_ANOMALY => stdout_of (@quality_warning ctx)
              | _ => ""
              end))%string /\
     (why <> STOP_ANOMALY ->
      Forall (fun p => ~ In NUL (list_ascii_of_string p)) (emitted tr) ->
      stdout_of tr = resp) /\
     List.length (sampled tr) = S (List.length (emitted tr)) /\
     List.length (decoded tr) = List.length (sampled tr)).
Proof.
  intros Hg.
  pose proof (generate_stdout _ _ _ _ _ Hg) as Hout.
  destruct (generate_cases _ _ _ _ _ Hg)
    as (pre & evs & -> & He & Hs & Hd & Hc).
  rewrite emitted_app, sampled_app, decoded_app, He, Hs, Hd in *.
  cbn [app] in *.
  destruct Hc as [(-> & _ & Ho) | [(-> & _ & Ho) | (_ & Hl)]].
  - cbn. split; [lia|]. split; [lia|].
    intros resp why c' ->. discriminate Ho.
  - cbn. split; [lia|]. split; [lia|].
    intros resp why c' ->. discriminate Ho.
  - destruct (loop_counts _ _ _ _ _ _ Hl) as (H1 & H2 & H3).
    split; [exact H1|]. split; [exact H2|].
    intros resp why c' ->.
    pose proof (loop_response _ _ _ _ _ _ _ _ Hl) as Hresp.
    cbn [response init_state append] in Hresp.
    assert (Hprinted :
              stdout_of (pre ++ evs)
              = (concat_pieces (map c_str (emitted evs))
                   ++ (match why with
                       | STOP_ANOMALY => stdout_of (@quality_warning ctx)
                       | _ => ""
                       end))%string).
    { rewrite Hout. destruct why; reflexivity. }
    split; [exact Hresp|]. split; [exact Hprinted|].
    split; [|exact (H3 _ _ _ eq_refl)].
    intros Hwhy Hnul. rewrite Hprinted, Hresp, (map_c_str_whole _ Hnul).
    destruct why; try apply append_nil_r. destruct (Hwhy eq_refl).
Qed.

Lemma loop_batches n_predict fuel : forall c st tr resp why c',
  loop fuel n_predict c st = (tr, Returned resp why c') ->
  exists front t,
    sampled tr = front ++ [t] /\
    emitted tr = map display front /\
    map snd (decoded tr) = batch st :: map (fun x => [x]) front.
Proof.
  induction fuel as [|fuel IH]; intros c st tr resp why c'; cbn [loop];
    [discriminate|].
  pass_cases n_predict c st; try discriminate.
  - intros [= <- _ _ _]. exists [], tok. repeat split.
  - intros [= <- _ _]. exists [], tok. repeat split.
  - destruct (loop fuel n_predict c2 (advance st tok)) as [tr' o'] eqn:Hl.
    intros [= <- ->].
    destruct (IH _ _ _ _ _ _ Hl) as (front & t & Hs & He & Hd).
    exists (tok :: front), t. cbn. rewrite Hs, He, Hd. repeat split.
Qed.

(** X6: every token whose piece is printed is fed back to the model. In
a call that returns, the batches decoded are the prompt batch and then,
for each token printed, the batch of that one token, in order; the last
token sampled is the only one neither printed nor decoded. *)
Theorem printed_tokens_are_fed_back n_predict c prompt tr resp why c' :
  generate n_predict c prompt = (tr, Returned resp why c') ->
  exists front t,
    sampled tr = front ++ [t] /\
    emitted tr = map display front /\
    map snd (decoded tr)
    = prompt_tokens c prompt :: map (fun x => [x]) front.
Proof.
  intros Hg.
  destruct (generate_cases _ _ _ _ _ Hg)
    as (pre & evs & -> & He & Hs & Hd & Hc).
  rewrite emitted_app, sampled_app, decoded_app, He, Hs, Hd. cbn [app].
  destruct Hc as [(_ & _ & Ho) | [(_ & _ & Ho) | (_ & Hl)]];
    try discriminate Ho.
  exact (loop_batches _ _ _ _ _ _ _ _ Hl).
Qed.

(** X7: at most [n_predict] pieces are printed, and none when
[n_predict] is not positive, however the call ends. *)
Theorem printed_at_most_n_predict n_predict c prompt tr o :
  generate n_predict c prompt = (tr, o) ->
  Z.of_nat (List.length (emitted tr)) <= Z.max n_predict 0.
Proof.
  intros Hg.
  destruct (generate_history _ _ _ _ _ Hg) as (front & He & Hp & _).
  rewrite He, length_map.
  destruct front as [|x f] using rev_ind; [cbn; lia|]. clear IHf.
  destruct (Hp f x [] eq_refl) as (H & _).
  apply stop_check_none in H. rewrite length_app. cbn in *. lia.
Qed.

(** X8: an end-of-generation token always ends the call. No sampled
token but the last is one, and a call that returns gives the reason
[STOP_EOG] exactly when the last sampled token is one. *)
Theorem eog_always_stops n_predict c prompt tr o :
  generate n_predict c prompt = (tr, o) ->
  (forall a t b,
     sampled tr = a ++ t :: b -> b <> [] -> llama_vocab_is_eog t = false) /\
  (forall resp why c' front t,
     o = Returned resp why c' ->
     sampled tr = front ++ [t] ->
     (why = STOP_EOG <-> llama_vocab_is_eog t = true)).
Proof.
  intros Hg.
  destruct (generate_history _ _ _ _ _ Hg) as (front & Hsum).
  split.
  - intros a t b Hs Hb.
    destruct (summary_inner _ _ _ _ _ _ _ Hsum Hs Hb) as (H & _).
    apply stop_check_none in H. apply H.
  - intros resp why c' front' t' -> Hs.
    destruct Hsum as (_ & _ & t & Hs' & _ & Hf). cbn [app] in Hf.
    rewrite Hs' in Hs. apply app_inj_tail in Hs. destruct Hs as (_ & ->).
    destruct Hf as [Hf | (Hf & _ & _ & ->)].
    + apply stop_check_some in Hf.
      destruct Hf as [(-> & Ht) | [(-> & Ht & _) | (-> & Ht & _)]];
        rewrite Ht; split; congruence.
    + apply stop_check_none in Hf. destruct Hf as (Ht & _).
      rewrite Ht. split; congruence.
Qed.

Lemma loop_failures n_predict fuel : forall c st tr o,
  loop fuel n_predict c st = (tr, o) ->
  (forall ret, o = Aborted (AbortDecode ret) ->
     ret <> 0 /\
     exists tr0 c0 b,
       tr = tr0 ++ [EvDecode c0 b;
                    abort_message 140 ("failed to decode, ret = "
                                       ++ decimal ret ++ LF)%string] /\
       fst (llama_decode c0 b) = ret) /\
  (o = Aborted AbortTokenToPiece ->
     exists tr0 t,
       tr = tr0 ++ [EvSample t;
                    abort_message 161 ("failed to convert token to piece"
                                       ++ LF)%string] /\
       fst (llama_token_to_piece t) < 0) /\
  ((forall ret, o <> Aborted (AbortDecode ret)) ->
     Forall (fun cb => fst (llama_decode (fst cb) (snd cb)) = 0)
            (decoded tr)) /\
  o <> Aborted AbortVectorLength /\ o <> Aborted AbortTokenize /\
  o <> Aborted AbortStringRange.
Proof.
  induction fuel as [|fuel IH]; intros c st tr o; cbn [loop].
  { intros [= <- <-]. repeat split; try discriminate. constructor. }
  pass_cases n_predict c st.
  - intros [= <- <-]. repeat split; try discriminate. constructor.
  - intros [= <- <-]. split; [|split; [|split]]; try discriminate.
    + intros ret' [= <-]. split; [assumption|].
      exists [], c, (batch st). rewrite H0. split; reflexivity.
    + intros Hno. destruct (Hno ret eq_refl).
    + repeat split; discriminate.
  - intros [= <- <-]. split; [|split; [|split]]; try discriminate.
    + intros _. cbn. constructor; [cbn; rewrite H0; reflexivity|constructor].
    + repeat split; discriminate.
  - intros [= <- <-]. split; [|split; [|split]]; try discriminate.
    + intros _. exists [EvDecode c (batch st)], tok. split; [reflexivity|].
      assumption.
    + intros _. cbn. constructor; [cbn; rewrite H0; reflexivity|constructor].
    + repeat split; discriminate.
  - intros [= <- <-]. unfold quality_warning.
    split; [|split; [|split]]; try discriminate.
    + intros _. cbn. constructor; [cbn; rewrite H0; reflexivity|constructor].
    + repeat split; discriminate.
  - destruct (loop fuel n_predict c2 (advance st tok)) as [tr' o'] eqn:Hl.
    intros [= <- <-].
    destruct (IH _ _ _ _ Hl) as (Hd & Hp & Hz & Hrest).
    split; [|split; [|split]].
    + intros ret Ho. destruct (Hd ret Ho) as (Hne & tr0 & c0 & b & -> & Hr).
      split; [exact Hne|].
      exists ([EvDecode c (batch st); EvSample tok;
               EvStdout (c_str (display tok)); EvPiece (display tok)]
                ++ tr0), c0, b.
      rewrite <- app_assoc. split; [reflexivity | exact Hr].
    + intros Ho. destruct (Hp Ho) as (tr0 & t & -> & Ht).
      exists ([EvDecode c (batch st); EvSample tok;
               EvStdout (c_str (display tok)); EvPiece (display tok)]
                ++ tr0), t.
      rewrite <- app_assoc. split; [reflexivity | exact Ht].
    + intros Hno. cbn.
      constructor; [cbn; rewrite H0; reflexivity | exact (Hz Hno)].
    + exact Hrest.
Qed.

(** The one thing on stderr is the last thing in the trace. *)
Ltac last_event Hin :=
  cbn in Hin;
  repeat (destruct Hin as [Hin | Hin];
          [try discriminate Hin; injection Hin as <-;
           match goal with |- exists tr0, ?tr = tr0 ++ _ =>
             exists (removelast tr); reflexivity end|]);
  destruct Hin.

Lemma loop_stderr n_predict fuel : forall c st tr o,
  loop fuel n_predict c st = (tr, o) ->
  stderr_of tr = last_error o /\
  (forall s, In (EvStderr s) tr -> exists tr0, tr = tr0 ++ [EvStderr s]).
Proof.
  induction fuel as [|fuel IH]; intros c st tr o; cbn [loop].
  { intros [= <- <-]. split; [reflexivity | intros s []]. }
  pass_cases n_predict c st.
  1-5: intros [= <- <-]; split; [reflexivity|]; intros s Hin;
       unfold overflow_notice, quality_warning, abort_message in *;
       last_event Hin.
  destruct (loop fuel n_predict c2 (advance st tok)) as [tr' o'] eqn:Hl.
  intros [= <- <-]. destruct (IH _ _ _ _ Hl) as (Herr & Hlast).
  split; [exact Herr|].
  intros s [Hin | [Hin | [Hin | [Hin | Hin]]]]; try discriminate Hin.
  destruct (Hlast s Hin) as (tr0 & ->).
  exists ([EvDecode c (batch st); EvSample tok;
           EvStdout (c_str (display tok)); EvPiece (display tok)] ++ tr0).
  rewrite <- app_assoc. reflexivity.
Qed.

(** X9: what [generate] writes to stderr. It writes there at most once,
as the last thing it does, and only when it ends the process: the notice
"context size exceeded" before [exit(0)], or the message of the
[GGML_ABORT] of line 118, 140 (with the value [llama_decode] returned) or
161. A call that returns has written nothing to stderr, and [exit] is
called with no other status than 0. *)
Theorem stderr_only_at_the_end n_predict c prompt tr o :
  generate n_predict c prompt = (tr, o) ->
  match o with
  | Returned _ _ _ => stderr_of tr = []
  | Exited status =>
      status = 0 /\
      stderr_of tr = [("context size exceeded" ++ LF)%string]
  | Aborted AbortTokenize =>
      stderr_of tr
      = [ggml_abort 118 ("failed to tokenize the prompt" ++ LF)%string]
  | Aborted (AbortDecode ret) =>
      stderr_of tr
      = [ggml_abort 140 ("failed to decode, ret = "
                         ++ decimal ret ++ LF)%string]
  | Aborted AbortTokenToPiece =>
      stderr_of tr
      = [ggml_abort 161 ("failed to convert token to piece" ++ LF)%string]
  | _ => True
  end /\
  (forall s, In (EvStderr s) tr -> exists tr0, tr = tr0 ++ [EvStderr s]).
Proof.
  unfold generate.
  destruct (_ <? 0).
  { intros [= <- <-]. split; [exact I|].
    intros s Hin. last_event Hin. }
  destruct (llama_tokenize prompt (to_int _) _ _) as [ret written].
  destruct (ret <? 0).
  { intros [= <- <-]. split; [reflexivity|].
    intros s Hin. unfold abort_message in *. last_event Hin. }
  destruct (loop _ _ _ _) as [evs o'] eqn:Hl. intros [= <- <-].
  destruct (loop_stderr _ _ _ _ _ _ Hl) as (Herr & Hlast).
  cbn [stderr_of]. split.
  - destruct o' as [resp why c' | status | [] |]; try exact Herr;
      try exact I.
    split; [|exact Herr]. apply loop_exit in Hl. apply Hl.
  - intros s [Hin | [Hin | Hin]]; try discriminate Hin.
    destruct (Hlast s Hin) as (tr0 & ->).
    eexists (_ :: _ :: tr0). reflexivity.
Qed.

(** X10: degenerate output is cut short in every call, however it
ends. The tokens whose pieces are printed never hold the same token more
than 31 times in a row, and the pieces printed never hold more than 9
suspicious pieces in a row. *)
Theorem printed_runs_are_short n_predict c prompt tr o :
  generate n_predict c prompt = (tr, o) ->
  exists front,
    emitted tr = map display front /\
    (sampled tr = front \/ exists t, sampled tr = front ++ [t]) /\
    (forall pre t k post,
       front = pre ++ repeat t k ++ post -> (k <= 31)%nat) /\
    (forall pre run post,
       emitted tr = pre ++ run ++ post ->
       Forall (fun p => suspicious p = true) run ->
       (List.length run <= 9)%nat).
Proof.
  intros Hg.
  destruct (generate_history _ _ _ _ _ Hg) as (front & Hsum).
  pose proof Hsum as (He & Hp & _).
  exists front. split; [exact He|].
  split; [exact (summary_sampled _ _ _ _ Hsum)|]. split.
  - intros pre t k post Hf.
    destruct (Nat.le_gt_cases k 31) as [Hk | Hk]; [exact Hk|]. exfalso.
    replace k with (31 + S (k - 32))%nat in Hf by lia.
    rewrite repeat_app in Hf. cbn [repeat] in Hf.
    rewrite <- !app_assoc, app_assoc in Hf. cbn [app] in Hf.
    apply (passes_no_run n_predict pre t).
    exact (Hp _ _ _ Hf).
  - intros pre run post Hsplit Hall.
    rewrite He, app_assoc in Hsplit.
    pose proof (all_pass_anomaly _ _ _ _ Hp Hsplit) as Hlt.
    rewrite (anomaly_after_suspicious _ _ Hall) in Hlt.
    pose proof (anomaly_after_nonneg pre). lia.
Qed.

Ltac thread_step :=
  unfold after_passes, after_pass; cbn;
  repeat match goal with
         | H : llama_decode _ _ = _ |- _ => rewrite H; cbn
         | H : llama_sampler_sample _ = _ |- _ => rewrite H; cbn
         end.

Lemma loop_threaded n_predict fuel : forall c st tr o,
  loop fuel n_predict c st = (tr, o) ->
  threaded c (decoded tr) /\
  (forall resp why c', o = Returned resp why c' ->
                       c' = after_passes c (decoded tr)).
Proof.
  induction fuel as [|fuel IH]; intros c st tr o; cbn [loop].
  { intros [= <- <-]. split; [exact I | discriminate]. }
  pass_cases n_predict c st.
  - intros [= <- <-]. split; [exact I | discriminate].
  - intros [= <- <-]. split; [cbn; auto | discriminate].
  - intros [= <- <-]. split; [cbn; auto|].
    intros resp why' c' [= _ _ <-]. thread_step. reflexivity.
  - intros [= <- <-]. split; [cbn; auto | discriminate].
  - intros [= <- <-]. unfold quality_warning. split; [cbn; auto|].
    intros resp why' c' [= _ _ <-]. thread_step. reflexivity.
  - destruct (loop fuel n_predict c2 (advance st tok)) as [tr' o'] eqn:Hl.
    intros [= <- <-]. destruct (IH _ _ _ _ Hl) as (Ht & Hc).
    assert (Hc2 : after_pass c (batch st) = c2)
      by (thread_step; reflexivity).
    cbn [decoded threaded app]. unfold after_passes in *.
    cbn [fold_left fst snd].
    rewrite Hc2. split; [auto|].
    intros resp why' c' Ho. exact (Hc _ _ _ Ho).
Qed.

(** X16: the state of the engine is threaded through the call. The
first decode is on the context [generate] was given, every later decode
is on the context the sample of the pass before left, and the context of
a call that returns is the one the last sample left. *)
Theorem engine_state_is_threaded n_predict c prompt tr o :
  generate n_predict c prompt = (tr, o) ->
  threaded c (decoded tr) /\
  (forall resp why c', o = Returned resp why c' ->
                       c' = after_passes c (decoded tr)).
Proof.
  intros Hg.
  destruct (generate_cases _ _ _ _ _ Hg)
    as (pre & evs & -> & _ & _ & Hd & Hc).
  rewrite decoded_app, Hd. cbn [app].
  destruct Hc as [(-> & _ & Ho) | [(-> & _ & Ho) | (_ & Hl)]].
  - split; [exact I|]. intros resp why c' ->. discriminate Ho.
  - split; [exact I|]. intros resp why c' ->. discriminate Ho.
  - exact (loop_threaded _ _ _ _ _ _ Hl).
Qed.

(** X17: a failure of the engine is fatal on the spot. A call aborts on
a decode exactly after a decode that returned the non-zero value
reported, and on a detokenization right after sampling a token whose
piece has a negative length; the message of the abort, on stderr, is all
that follows either; and in a call that does not abort on a decode every
decode returned 0. *)
Theorem engine_failure_is_fatal n_predict c prompt tr o :
  generate n_predict c prompt = (tr, o) ->
  (forall ret, o = Aborted (AbortDecode ret) ->
     ret <> 0 /\
     exists tr0 c0 b,
       tr = tr0 ++ [EvDecode c0 b;
                    abort_message 140 ("failed to decode, ret = "
                                       ++ decimal ret ++ LF)%string] /\
       fst (llama_decode c0 b) = ret) /\
  (o = Aborted AbortTokenToPiece ->
     exists tr0 t,
       tr = tr0 ++ [EvSample t;
                    abort_message 161 ("failed to convert token to piece"
                                       ++ LF)%string] /\
       fst (llama_token_to_piece t) < 0) /\
  ((forall ret, o <> Aborted (AbortDecode ret)) ->
     Forall (fun cb => fst (llama_decode (fst cb) (snd cb)) = 0)
            (decoded tr)).
Proof.
  intros Hg.
  destruct (generate_cases _ _ _ _ _ Hg)
    as (pre & evs & -> & _ & _ & Hd & Hc).
  rewrite decoded_app, Hd. cbn [app].
  destruct Hc as [(-> & _ & Ho) | [(-> & _ & Ho) | (_ & Hl)]].
  - split; [|split].
    + intros ret ->. discriminate Ho.
    + intros ->. discriminate Ho.
    + intros _. constructor.
  - split; [|split].
    + intros ret ->. discriminate Ho.
    + intros ->. discriminate Ho.
    + intros _. constructor.
  - destruct (loop_failures _ _ _ _ _ _ Hl) as (H1 & H2 & H3 & _).
    split; [|split; [|exact H3]].
    + intros ret Ho. destruct (H1 ret Ho) as (Hne & tr0 & c0 & b & -> & Hr).
      split; [exact Hne|]. exists (pre ++ tr0), c0, b.
      rewrite <- app_assoc. split; [reflexivity | exact Hr].
    + intros Ho. destruct (H2 Ho) as (tr0 & t & -> & Ht).
      exists (pre ++ tr0), t.
      rewrite <- app_assoc. split; [reflexivity | exact Ht].
Qed.

(** X18: a prompt the tokenizer refuses is never decoded. The size of the
vector of line 116 is the negated answer of the first tokenizer call, as
an [int]. The call dies making that vector exactly when the size is
negative, which it is when the tokenizer answers INT_MIN, and then the
first tokenizer call is all the call did. It aborts on line 118 exactly
when the size is not negative and the second call, on a buffer of that
size, returns a negative value; then there are the two tokenizer calls
and the message of the abort on stderr, and no decode, no sample and no
piece. *)
Theorem tokenizer_failure_is_fatal n_predict c prompt tr o :
  generate n_predict c prompt = (tr, o) ->
  let first := llama_memory_seq_pos_max c =? -1 in
  let n := to_int (- fst (llama_tokenize prompt 0 first true)) in
  (o = Aborted AbortVectorLength <-> n < 0) /\
  (o = Aborted AbortVectorLength -> tr = [EvTokenize prompt 0 first true]) /\
  (fst (llama_tokenize prompt 0 first true) = - 2 ^ 31 ->
   o = Aborted AbortVectorLength) /\
  (o = Aborted AbortTokenize <->
   0 <= n /\ fst (llama_tokenize prompt n first true) < 0) /\
  (o = Aborted AbortTokenize ->
   tr = [EvTokenize prompt 0 first true; EvTokenize prompt n first true;
         abort_message 118 ("failed to tokenize the prompt" ++ LF)%string]).
Proof.
  cbv zeta. unfold generate.
  set (first := llama_memory_seq_pos_max c =? -1).
  set (n := to_int (- fst (llama_tokenize prompt 0 first true))).
  assert (Hmin : fst (llama_tokenize prompt 0 first true) = - 2 ^ 31 ->
                 n < 0).
  { intros H. unfold n. rewrite H. reflexivity. }
  destruct (n <? 0) eqn:Hn.
  { apply Z.ltb_lt in Hn. intros [= <- <-].
    split; [split; auto|]. split; [reflexivity|]. split; [reflexivity|].
    split; [split|]; try discriminate. lia. }
  apply Z.ltb_ge in Hn.
  destruct (llama_tokenize prompt n first true) as [ret written] eqn:Ht.
  cbn [fst].
  destruct (ret <? 0) eqn:Hret.
  { apply Z.ltb_lt in Hret. intros [= <- <-].
    split; [split; [discriminate | lia]|]. split; [discriminate|].
    split; [intros H; apply Hmin in H; lia|].
    split; [split; auto|]. reflexivity. }
  apply Z.ltb_ge in Hret.
  destruct (loop _ _ _ _) as [evs o'] eqn:Hl. intros [= <- <-].
  destruct (loop_failures _ _ _ _ _ _ Hl) as (_ & _ & _ & Hv & Hno & _).
  split; [split; [intros Ho; destruct (Hv Ho) | lia]|].
  split; [intros Ho; destruct (Hv Ho)|].
  split; [intros H; apply Hmin in H; lia|].
  split; [split; [intros Ho; destruct (Hno Ho) | lia]|].
  intros Ho. destruct (Hno Ho).
Qed.

(** X20: the test of line 132 is made on [int]s. With a capacity below
2^31 it is the comparison of [n_ctx_used + batch.n_tokens] with the
capacity. A capacity of 2^31 to 2^32 - 1 is a negative [int] at line 130:
every pass finds the context full, so a call of [generate] exits at the
first pass, after the tokenizer calls, and never decodes or returns. (The
sums are taken in the range of an [int], and positions are counted from
-1.) *)
Theorem context_test_is_on_ints n_predict c prompt :
  (llama_n_ctx c < 2 ^ 31 ->
   forall b,
     - 2 ^ 31 <= llama_memory_seq_pos_max c + 1 + Z.of_nat (List.length b)
     < 2 ^ 31 ->
     (context_full c b = false <-> fits c b)) /\
  (2 ^ 31 <= llama_n_ctx c < 2 ^ 32 ->
   0 <= llama_memory_seq_pos_max c + 1 ->
   (forall st,
      llama_memory_seq_pos_max c + 1 + Z.of_nat (List.length (batch st))
      < 2 ^ 31 ->
      iteration n_predict c st = (overflow_notice, Stop (Exited 0))) /\
   (llama_memory_seq_pos_max c + 1
    + Z.of_nat (List.length (prompt_tokens c prompt)) < 2 ^ 31 ->
    decoded (fst (generate n_predict c prompt)) = [] /\
    forall resp why c',
      snd (generate n_predict c prompt) <> Returned resp why c')).
Proof.
  split.
  - intros Hc b Hs. split; [apply context_full_fits|].
    intros Hf. apply context_full_int; [exact Hc | exact Hf | lia].
  - intros Hc Hp.
    assert (Hpass : forall st,
      llama_memory_seq_pos_max c + 1 + Z.of_nat (List.length (batch st))
      < 2 ^ 31 ->
      iteration n_predict c st = (overflow_notice, Stop (Exited 0))).
    { intros st Hs. unfold iteration.
      rewrite context_full_large by assumption. reflexivity. }
    split; [exact Hpass|].
    unfold generate, prompt_tokens.
    destruct (to_int _ <? 0);
      [intros _; split; [reflexivity | discriminate]|].
    destruct (llama_tokenize prompt (to_int _) _ _) as [ret written].
    cbn [fst snd].
    destruct (ret <? 0); [intros _; split; [reflexivity | discriminate]|].
    intros Hs. cbn [loop]. rewrite Hpass by exact Hs.
    split; [reflexivity | discriminate].
Qed.

End GenerateMore.

(** ** More about the session *)

Section SessionMore.

Context {ctx : Type} {E : Engine ctx} {T : ChatTemplate}.

Local Open Scope list_scope.

Lemma generate_exit_zero n_predict c prompt tr status :
  generate n_predict c prompt = (tr, Exited status) -> status = 0.
Proof.
  intros Hg.
  destruct (generate_cases _ _ _ _ _ Hg)
    as (pre & evs & _ & _ & _ & _
        & [(_ & _ & Ho) | [(_ & _ & Ho) | (_ & Hl)]]);
    try discriminate Ho.
  apply loop_exit in Hl. apply Hl.
Qed.

Lemma turn_exit_status n_predict (s : session ctx) user tr status :
  turn n_predict s user = (tr, inr (ProcExit status)) ->
  status = 0 \/ status = 1.
Proof.
  unfold turn.
  destruct (render_user s user) as [msgs [[new_len fmt]|]];
    [|discriminate].
  destruct (new_len <? 0); [intros [= _ <-]; auto|].
  destruct (new_len <? prev_len s); [discriminate|].
  destruct (generate _ _ _) as [gtr o] eqn:Hg.
  destruct o as [resp why c' | st | cause |]; try discriminate.
  - destruct (llama_chat_apply_template _ false []) as [len buf].
    destruct (len <? 0); [intros [= _ <-]; auto | discriminate].
  - intros [= _ <-]. left. exact (generate_exit_zero _ _ _ _ _ Hg).
Qed.

Lemma chat_loop_exit_status n_predict stdin : forall (s : session ctx) tr status,
  chat_loop n_predict stdin s = (tr, ProcExit status) ->
  status = 0 \/ status = 1.
Proof.
  induction stdin as [|user rest IH]; intros s tr status; cbn [chat_loop].
  { intros [= _ <-]. auto. }
  destruct (user =? "")%string; [intros [= _ <-]; auto|].
  destruct (turn n_predict s user) as [ttr [s' | e]] eqn:Ht.
  - destruct (chat_loop n_predict rest s') as [tr' e'] eqn:Hl.
    intros [= _ ->]. exact (IH _ _ _ Hl).
  - intros [= _ ->]. exact (turn_exit_status _ _ _ _ _ Ht).
Qed.

Lemma chat_loop_has_fuel n_predict stdin : forall (s : session ctx),
  snd (chat_loop n_predict stdin s) <> ProcOutOfFuel.
Proof.
  induction stdin as [|user rest IH]; intros s; cbn [chat_loop].
  { cbn. discriminate. }
  destruct (user =? "")%string; [cbn; discriminate|].
  pose proof (turn_has_fuel n_predict s user) as Hf.
  destruct (turn n_predict s user) as [ttr [s' | e]].
  - specialize (IH s').
    destruct (chat_loop n_predict rest s') as [tr' e']. exact IH.
  - cbn in *. congruence.
Qed.

Lemma chat_loop_empty_line n_predict before after : forall (s : session ctx),
  chat_loop n_predict (before ++ ""%string :: after) s
  = chat_loop n_predict before s.
Proof.
  induction before as [|user rest IH]; intros s.
  - reflexivity.
  - cbn [app chat_loop].
    destruct (user =? "")%string; [reflexivity|].
    destruct (turn n_predict s user) as [ttr [s' | e]]; [|reflexivity].
    rewrite IH. reflexivity.
Qed.

(** The session ends with status 0 unless one of its turns ends the
process. *)
Lemma chat_loop_end n_predict stdin : forall (s : session ctx) tr e,
  chat_loop n_predict stdin s = (tr, e) ->
  e = ProcExit 0 \/
  exists pre user rest s1 tr1,
    stdin = pre ++ user :: rest /\ user <> ""%string /\
    reaches n_predict s s1 /\
    turn n_predict s1 user = (tr1, inr e).
Proof.
  induction stdin as [|user rest IH]; intros s tr e; cbn [chat_loop].
  { intros [= _ <-]. left. reflexivity. }
  destruct (user =? "")%string eqn:Hu; [intros [= _ <-]; left; reflexivity|].
  apply String.eqb_neq in Hu.
  destruct (turn n_predict s user) as [ttr [s' | e']] eqn:Ht.
  - destruct (chat_loop n_predict rest s') as [tr' e''] eqn:Hl.
    intros [= _ ->].
    destruct (IH _ _ _ Hl)
      as [He | (pre & user' & rest' & s1 & tr1 & -> & Hne & Hreach & Hend)];
      [left; exact He | right].
    exists (user :: pre), user', rest', s1, tr1.
    split; [reflexivity|]. split; [exact Hne|]. split; [|exact Hend].
    exact (reaches_turn _ _ _ _ _ _ Hu Ht Hreach).
  - intros [= _ ->]. right. exists [], user, rest, s, ttr.
    split; [reflexivity|]. split; [exact Hu|]. split; [|exact Ht].
    apply reaches_refl.
Qed.

(** X11: an empty line is the end of the input. At an empty line, as at
the end of the input, the session prints its prompt once more and [main]
returns 0, whatever state the session is in and whatever follows the empty
line; so a conversation goes the same way with the input cut at its first
empty line. And a session whose input holds an empty line ends with status
0 unless one of the turns before that line, run in a session the
conversation reaches, ends the process itself. *)
Theorem empty_line_is_end_of_input n_predict before after (s : session ctx) :
  chat_loop n_predict (""%string :: after) s
  = ([EvStdout (ESC ++ "[32m> " ++ ESC ++ "[0m")], ProcExit 0) /\
  chat_loop n_predict [] s
  = ([EvStdout (ESC ++ "[32m> " ++ ESC ++ "[0m")], ProcExit 0) /\
  chat_loop n_predict (before ++ ""%string :: after) s
  = chat_loop n_predict before s /\
  (forall tr e,
     chat_loop n_predict (before ++ ""%string :: after) s = (tr, e) ->
     e = ProcExit 0 \/
     exists pre user rest s1 tr1,
       before = pre ++ user :: rest /\ user <> ""%string /\
       reaches n_predict s s1 /\
       turn n_predict s1 user = (tr1, inr e)).
Proof.
  split; [reflexivity|]. split; [reflexivity|].
  split; [apply chat_loop_empty_line|].
  intros tr e. rewrite chat_loop_empty_line. apply chat_loop_end.
Qed.

Lemma length_render_into (buf : list ascii) (text : string) :
  List.length (render_into buf text) = List.length buf.
Proof.
  unfold render_into. rewrite length_firstn, length_app, repeat_length. lia.
Qed.

(** The buffer after lines 223-228: resized to the length of the render
when that is above the size read as an [int], left at its size
otherwise. *)
Lemma render_user_buffer (s : session ctx) user full :
  chat_render (messages s ++ [mkMsg "user" (c_str user)]) true = Some full ->
  exists fmt,
    snd (render_user s user) = Some (Z.of_nat (String.length full), fmt) /\
    List.length fmt
    = (if Z.of_nat (String.length full)
            >? to_int (Z.of_nat (List.length (formatted s)))
       then String.length full else List.length (formatted s)) /\
    firstn (String.length full) fmt = list_ascii_of_string full.
Proof.
  intros Hr. unfold render_user, llama_chat_apply_template. rewrite Hr.
  pose proof (to_int_le (Z.of_nat (List.length (formatted s)))) as Hle.
  destruct (_ >? _) eqn:Hgt; rewrite Z.gtb_ltb in Hgt.
  - destruct (_ <? 0) eqn:Hneg; [apply Z.ltb_lt in Hneg; lia|].
    eexists. split; [reflexivity|].
    rewrite length_render_into, length_resize.
    split; [lia|]. apply render_into_front. rewrite length_resize. lia.
  - apply Z.ltb_ge in Hgt. eexists. split; [reflexivity|].
    rewrite length_render_into.
    split; [reflexivity|]. apply render_into_front. lia.
Qed.

Lemma turn_formatted n_predict (s : session ctx) user tr s' :
  turn n_predict s user = (tr, inl s') ->
  exists new_len, snd (render_user s user) = Some (new_len, formatted s').
Proof.
  unfold turn.
  destruct (render_user s user) as [msgs [[new_len fmt]|]];
    [|discriminate].
  destruct (new_len <? 0); [discriminate|].
  destruct (new_len <? prev_len s); [discriminate|].
  destruct (generate _ _ _) as [gtr o].
  destruct o as [resp why c' | st | cause |]; try discriminate.
  destruct (llama_chat_apply_template _ false []) as [len buf].
  destruct (len <? 0); [discriminate|].
  intros [= _ <-]. exists new_len. reflexivity.
Qed.

(** The buffer after a turn that completes. *)
Lemma turn_buffer n_predict (s : session ctx) user tr s' :
  turn n_predict s user = (tr, inl s') ->
  exists full,
    chat_render (messages s ++ [mkMsg "user" (c_str user)]) true
    = Some full /\
    List.length (formatted s')
    = (if Z.of_nat (String.length full)
            >? to_int (Z.of_nat (List.length (formatted s)))
       then String.length full else List.length (formatted s)) /\
    firstn (String.length full) (formatted s')
    = list_ascii_of_string full.
Proof.
  intros Ht.
  destruct (turn_done _ _ _ _ _ Ht) as (full & _ & _ & _ & _ & Hr & _).
  exists full. split; [exact Hr|].
  destruct (turn_formatted _ _ _ _ _ Ht) as (new_len & Hfmt).
  destruct (render_user_buffer _ _ _ Hr) as (fmt & Hru & Hlen & Hfront).
  rewrite Hru in Hfmt. injection Hfmt as _ <-.
  split; [exact Hlen | exact Hfront].
Qed.

Lemma max_of_test (size len : nat) :
  Z.of_nat size < 2 ^ 31 ->
  (if Z.of_nat len >? to_int (Z.of_nat size) then len else size)
  = Nat.max size len.
Proof.
  intros H. rewrite to_int_small by lia.
  destruct (_ >? _) eqn:Hgt; rewrite Z.gtb_ltb in Hgt;
    [apply Z.ltb_lt in Hgt | apply Z.ltb_ge in Hgt]; lia.
Qed.

(** X12: the buffer [formatted] is only ever made longer, as long as
sizes are in the range of an [int]. After a turn that completes, the
buffer holds the render of that turn at its front, and its size is the
length of that render when the test of line 225 held, its old size
otherwise: for a buffer of less than 2^31 bytes, the larger of its old
size and the length of the render. Over the turns that follow, a buffer of
less than 2^31 bytes never gets shorter, when the renders of the template
are shorter than 2^31 bytes too (the lengths that come back as a positive
[int]). *)
Theorem formatted_only_grows n_predict (s : session ctx) :
  (forall user tr s',
     turn n_predict s user = (tr, inl s') ->
     exists full,
       chat_render (messages s ++ [mkMsg "user" (c_str user)]) true
       = Some full /\
       List.length (formatted s')
       = (if Z.of_nat (String.length full)
               >? to_int (Z.of_nat (List.length (formatted s)))
          then String.length full else List.length (formatted s)) /\
       (Z.of_nat (List.length (formatted s)) < 2 ^ 31 ->
        List.length (formatted s')
        = Nat.max (List.length (formatted s)) (String.length full)) /\
       firstn (String.length full) (formatted s')
       = list_ascii_of_string full) /\
  (Z.of_nat (List.length (formatted s)) < 2 ^ 31 ->
   (forall msgs add_ass text,
      chat_render msgs add_ass = Some text ->
      Z.of_nat (String.length text) < 2 ^ 31) ->
   forall s', reaches n_predict s s' ->
              (List.length (formatted s) <= List.length (formatted s'))%nat).
Proof.
  split.
  - intros user tr s' Ht.
    destruct (turn_buffer _ _ _ _ _ Ht) as (full & Hr & Hlen & Hfront).
    exists full. split; [exact Hr|]. split; [exact Hlen|].
    split; [|exact Hfront].
    intros Hsize. rewrite Hlen. apply max_of_test. exact Hsize.
  - intros Hsize Hrender s' Hreach. revert Hsize.
    induction Hreach as [s0 | s0 user tr s1 s2 _ Ht _ IH]; intros Hsize;
      [lia|].
    destruct (turn_buffer _ _ _ _ _ Ht) as (full & Hr & Hlen & _).
    rewrite (max_of_test _ _ Hsize) in Hlen.
    pose proof (Hrender _ _ _ Hr) as Hfull.
    assert (Hs1 : Z.of_nat (List.length (formatted s1)) < 2 ^ 31) by lia.
    specialize (IH Hs1). lia.
Qed.

(** X13: the history alternates. Each turn that completes adds a "user"
and then an "assistant" message, so the roles of the messages added since
any earlier point of the session are "user", "assistant" repeated, and
their number is even. *)
Theorem history_alternates n_predict (s s' : session ctx) :
  reaches n_predict s s' ->
  exists k,
    map role (messages s')
    = map role (messages s)
        ++ List.concat (repeat ["user"%string; "assistant"%string] k) /\
    List.length (messages s') = (List.length (messages s) + 2 * k)%nat.
Proof.
  induction 1 as [s0 | s0 user tr s1 s2 _ Ht _ (k & IH1 & IH2)].
  - exists 0%nat. cbn. rewrite app_nil_r. split; [reflexivity | lia].
  - destruct (turn_done _ _ _ _ _ Ht)
      as (full & fmt & resp & why & committed & _ & _ & _ & _ & Hm & _).
    exists (S k). rewrite IH1, IH2, Hm, map_app, length_app.
    cbn. rewrite <- app_assoc. split; [reflexivity | lia].
Qed.

Lemma c_str_no_nul (text : string) :
  ~ In NUL (list_ascii_of_string (c_str text)).
Proof.
  induction text as [|a text IH]; cbn [c_str]; [cbn; tauto|].
  destruct (a =? NUL)%char eqn:Ha; cbn [list_ascii_of_string In];
    [tauto|].
  apply Ascii.eqb_neq in Ha. intros [Heq | Hin]; [congruence | tauto].
Qed.

Lemma c_str_prefix (text : string) :
  exists rest,
    text = (c_str text ++ rest)%string /\
    (rest = ""%string \/ exists r, rest = String NUL r).
Proof.
  induction text as [|a text (rest & IH1 & IH2)]; cbn [c_str].
  - exists ""%string. auto.
  - destruct (a =? NUL)%char eqn:Ha.
    + apply Ascii.eqb_eq in Ha. subst a. exists (String NUL text).
      split; [reflexivity | right; eauto].
    + exists rest. cbn [append]. rewrite <- IH1. auto.
Qed.

(** X14: the history keeps a text up to its first NUL byte. A turn that
completes has called [generate], which returned a response; what it adds
to the history is the line read, as the "user" message, and that response,
as the "assistant" message, each cut at its first NUL byte: the line is
the stored text followed by nothing or by a rest that starts with NUL, and
so is the response, and the stored texts hold no NUL. So no message of a
session that started empty holds a NUL byte, and a line without NUL is
stored whole. *)
Theorem history_stops_at_nul n_predict (c : ctx) (s : session ctx) :
  reaches n_predict (init_session c) s ->
  (forall user tr s',
     turn n_predict s user = (tr, inl s') ->
     exists prompt resp why kept_line kept_resp rest_line rest_resp,
       snd (generate n_predict (engine s) prompt)
       = Returned resp why (engine s') /\
       messages s'
       = messages s ++ [mkMsg "user" kept_line;
                        mkMsg "assistant" kept_resp] /\
       user = (kept_line ++ rest_line)%string /\
       resp = (kept_resp ++ rest_resp)%string /\
       ~ In NUL (list_ascii_of_string kept_line) /\
       ~ In NUL (list_ascii_of_string kept_resp) /\
       (rest_line = ""%string \/ exists r, rest_line = String NUL r) /\
       (rest_resp = ""%string \/ exists r, rest_resp = String NUL r) /\
       (~ In NUL (list_ascii_of_string user) -> kept_line = user)) /\
  Forall (fun m => ~ In NUL (list_ascii_of_string (content m))) (messages s).
Proof.
  intros Hreach. split.
  - intros user tr s' Ht.
    destruct (turn_done _ _ _ _ _ Ht)
      as (full & fmt & resp & why & committed & _ & _ & _ & Hg & Hm & _).
    destruct (c_str_prefix user) as (rest_line & Hline & Hrl).
    destruct (c_str_prefix resp) as (rest_resp & Hresp & Hrr).
    exists (slice fmt (prev_len s) (Z.of_nat (String.length full))), resp, why,
      (c_str user), (c_str resp), rest_line, rest_resp.
    split; [exact Hg|]. split; [exact Hm|].
    split; [exact Hline|]. split; [exact Hresp|].
    split; [apply c_str_no_nul|]. split; [apply c_str_no_nul|].
    split; [exact Hrl|]. split; [exact Hrr|].
    apply c_str_whole.
  - assert (Hgen : forall s0 s1 : session ctx,
               reaches n_predict s0 s1 ->
               Forall (fun m => ~ In NUL (list_ascii_of_string (content m)))
                      (messages s0) ->
               Forall (fun m => ~ In NUL (list_ascii_of_string (content m)))
                      (messages s1)).
    { induction 1 as [s0 | s0 user tr s1 s2 _ Ht _ IH]; intros H0;
        [exact H0|].
      apply IH.
      destruct (turn_done _ _ _ _ _ Ht)
        as (full & fmt & resp & why & committed & _ & _ & _ & _ & Hm & _).
      rewrite Hm. apply Forall_app. split; [exact H0|].
      repeat constructor; cbn; apply c_str_no_nul. }
    apply (Hgen _ _ Hreach). constructor.
Qed.

End SessionMore.

(** ** The whole program *)

Section MainFacts.

Context {ctx model : Type} {H : Host ctx model}.

Local Open Scope list_scope.

Lemma parse_args_status argv0 args (tr : list (event ctx)) status :
  CommandLine.parse_args stoi argv0 args = (tr, inr status) -> status = 1.
Proof.
  unfold CommandLine.parse_args.
  destruct (CommandLine.parse_loop stoi argv0 args CommandLine.defaults)
    as [tr0 r] eqn:Hl.
  destruct (CommandLineFacts.parse_loop_result _ _ _ _ _ _ Hl)
    as [(o' & -> & ->) | (-> & _)].
  - destruct (CommandLine.model_path o' =? "")%string; [|discriminate].
    intros [= _ <-]. reflexivity.
  - intros [= _ <-]. reflexivity.
Qed.

(** X15: how the program ends. It returns or exits with status 0 or 1,
or it is aborted ([GGML_ABORT], or an exception nobody catches); the model
never ends for lack of fuel in the loop. Status 0 and an abort come only
after the command line was accepted, the model loaded and the context was
created; when one of the three fails the status is 1 and standard input is
not read. *)
Theorem how_main_ends argv0 args stdin tr e :
  main argv0 args stdin = (tr, e) ->
  e <> ProcOutOfFuel /\
  (e = ProcExit 0 \/ e = ProcExit 1 \/ exists cause, e = ProcAbort cause) /\
  (e = ProcExit 0 -> started argv0 args) /\
  (forall cause, e = ProcAbort cause -> started argv0 args) /\
  (~ started argv0 args ->
   forall stdin', main argv0 args stdin' = (tr, ProcExit 1)).
Proof.
  unfold main.
  destruct (CommandLine.parse_args stoi argv0 args) as [ptr [o | st]] eqn:Hp.
  2:{ intros [= <- <-]. pose proof (parse_args_status _ _ _ _ Hp) as ->.
      split; [discriminate|]. split; [auto|].
      split; [discriminate|]. split; [discriminate|].
      intros _ stdin'. reflexivity. }
  assert (ptr = []) as ->.
  { unfold CommandLine.parse_args in Hp.
    destruct (CommandLine.parse_loop stoi argv0 args CommandLine.defaults)
      as [tr0 r] eqn:Hl.
    destruct (CommandLineFacts.parse_loop_result _ _ _ _ _ _ Hl)
      as [(o' & -> & ->) | (-> & _)]; [|discriminate].
    destruct (CommandLine.model_path o' =? "")%string; [discriminate|].
    injection Hp as <- _. reflexivity. }
  destruct (llama_model_load_from_file _ _) as [m|] eqn:Hm.
  2:{ intros [= <- <-]. split; [discriminate|]. split; [auto|].
      split; [discriminate|]. split; [discriminate|].
      intros _ stdin'. reflexivity. }
  destruct (llama_init_from_model _ _ _) as [c|] eqn:Hc.
  2:{ intros [= <- <-]. split; [discriminate|]. split; [auto|].
      split; [discriminate|]. split; [discriminate|].
      intros _ stdin'. reflexivity. }
  assert (Hstarted : started argv0 args) by (exists o, m, c; auto).
  unfold chat.
  pose proof (chat_loop_has_fuel (E := model_engine m) (T := model_template m)
                (CommandLine.n_predict o) stdin
                (init_session (E := model_engine m) c)) as Hfuel.
  pose proof (chat_loop_exit_status (E := model_engine m)
                (T := model_template m)
                (CommandLine.n_predict o) stdin
                (init_session (E := model_engine m) c)) as Hst.
  destruct (chat_loop _ _ _) as [ctr e'].
  intros [= <- <-]. cbn in Hfuel.
  split; [exact Hfuel|].
  split.
  { destruct e' as [status | cause |].
    - destruct (Hst _ _ eq_refl) as [-> | ->]; auto.
    - right. right. exists cause. reflexivity.
    - destruct (Hfuel eq_refl). }
  split; [intros _; exact Hstarted|].
  split; [intros cause _; exact Hstarted|].
  intros Hno. destruct (Hno Hstarted).
Qed.

End MainFacts.

(** ** More statements at concrete inputs *)

Lemma rejected_prints_usage_witness :
  CommandLine.rejected (ctx := Scripted.sctx) "chat"
    [EvStderr ("error: stoi" ++ LF);
     EvStdout (LF ++ "example usage:" ++ LF);
     EvStdout (LF ++ "    chat -m model.gguf [-c context_size] [-ngl n_gpu_layers] [-n n_predict]" ++ LF);
     EvStdout LF].
Proof.
  apply (CommandLineFacts.rejected_prints_usage
           ScriptedHost.decimal_stoi "chat"
           ["-m"; "a.gguf"; "-c"; "x"] _ 1).
  reflexivity.
Defined.

Lemma accepted_options_witness :
  let o := CommandLine.mkOptions "a.gguf" 99 2048 5 in
  In "-m"%string ["-m"; "a.gguf"; "-n"; "5"] /\
  CommandLine.n_ctx o = 2048 /\ CommandLine.ngl o = 99.
Proof.
  intros o.
  destruct (CommandLineFacts.accepted_options (ctx := Scripted.sctx)
              ScriptedHost.decimal_stoi "chat"
              ["-m"; "a.gguf"; "-n"; "5"] [] o eq_refl)
    as (_ & _ & Hm & _ & Hc & Hg & _).
  split; [exact Hm|]. split.
  - apply Hc. intros [H | [H | [H | [H | []]]]]; discriminate H.
  - apply Hg. intros [H | [H | [H | [H | []]]]]; discriminate H.
Defined.

Lemma later_option_wins_witness :
  CommandLine.parse_loop (ctx := Scripted.sctx) ScriptedHost.decimal_stoi
    "chat" (["-m"; "a"; "-n"; "5"] ++ ["-n"; "7"])
    CommandLine.defaults
  = ([], inl (CommandLine.mkOptions "a" 99 2048 7)).
Proof.
  destruct (CommandLineFacts.later_option_wins (ctx := Scripted.sctx)
              ScriptedHost.decimal_stoi "chat"
              ["-m"; "a"; "-n"; "5"] CommandLine.defaults []
              (CommandLine.mkOptions "a" 99 2048 5) eq_refl) as (_ & H).
  apply H.
  apply (CommandLine.StepPredict ScriptedHost.decimal_stoi
           (CommandLine.mkOptions "a" 99 2048 5) "7" 7).
  reflexivity.
Defined.

Lemma one_more_argument_rejected_witness :
  CommandLine.parse_args (ctx := Scripted.sctx) ScriptedHost.decimal_stoi
    "chat" (["-m"; "a.gguf"] ++ ["-n"])
  = (CommandLine.print_usage "chat", inr 1).
Proof.
  apply (CommandLineFacts.one_more_argument_rejected
           ScriptedHost.decimal_stoi "chat" ["-m"; "a.gguf"] []
           (CommandLine.mkOptions "a.gguf" 99 2048 256)).
  reflexivity.
Defined.

Lemma printed_tokens_are_fed_back_witness :
  let r := generate 3 Scripted.letters "zz" in
  exists front t,
    sampled (fst r) = front ++ [t] /\
    emitted (fst r) = map display front /\
    map snd (decoded (fst r))
    = prompt_tokens Scripted.letters "zz" :: map (fun x => [x]) front.
Proof.
  intros r.
  apply (printed_tokens_are_fed_back 3 Scripted.letters "zz" (fst r)
           "abc" STOP_MAXLEN (Scripted.mkS 100 5 [])).
  vm_compute. reflexivity.
Defined.

Lemma printed_at_most_n_predict_witness :
  Z.of_nat (List.length (emitted (fst (generate 3 Scripted.letters "zz"))))
  <= Z.max 3 0.
Proof.
  apply (printed_at_most_n_predict 3 Scripted.letters "zz" _
           (snd (generate 3 Scripted.letters "zz"))).
  apply surjective_pairing.
Defined.

Lemma eog_always_stops_witness :
  let r := generate 256 (engine Scripted.session_start) "zz" in
  sampled (fst r) = [Scripted.tok "a"; Scripted.tok "b"] ++ [257] /\
  snd r = Returned "ab" STOP_EOG (Scripted.mkS 100 4 (map Scripted.tok ["c"; "d"]%char)) /\
  llama_vocab_is_eog (Scripted.tok "a") = false /\
  (STOP_EOG = STOP_EOG <-> llama_vocab_is_eog 257 = true).
Proof.
  intros r.
  assert (Hs : sampled (fst r)
               = [Scripted.tok "a"; Scripted.tok "b"] ++ [257])
    by (vm_compute; reflexivity).
  assert (Hr : snd r = Returned "ab" STOP_EOG
                 (Scripted.mkS 100 4 (map Scripted.tok ["c"; "d"]%char)))
    by (vm_compute; reflexivity).
  split; [exact Hs|]. split; [exact Hr|].
  destruct (eog_always_stops 256 (engine Scripted.session_start)
              "zz" (fst r) (snd r) (surjective_pairing r)) as (H1 & H2).
  split.
  - apply (H1 [] (Scripted.tok "a") [Scripted.tok "b"; 257]);
      [exact Hs | discriminate].
  - exact (H2 _ _ _ _ _ Hr Hs).
Defined.

Lemma printed_runs_are_short_witness :
  let r := generate 256 (Scripted.parens 12) "x" in
  exists front,
    emitted (fst r) = map display front /\
    (sampled (fst r) = front \/ exists t, sampled (fst r) = front ++ [t]) /\
    (forall pre t k post,
       front = pre ++ repeat t k ++ post -> (k <= 31)%nat) /\
    (forall pre run post,
       emitted (fst r) = pre ++ run ++ post ->
       Forall (fun p => suspicious p = true) run ->
       (List.length run <= 9)%nat).
Proof.
  intros r.
  apply (printed_runs_are_short 256 (Scripted.parens 12) "x" (fst r) (snd r)).
  apply surjective_pairing.
Defined.

Lemma history_alternates_witness :
  exists k,
    map role (messages Scripted.session_after_hi)
    = map role (messages Scripted.session_start)
        ++ List.concat (repeat ["user"%string; "assistant"%string] k) /\
    List.length (messages Scripted.session_after_hi)
    = (List.length (messages Scripted.session_start) + 2 * k)%nat.
Proof.
  apply (history_alternates 3).
  apply (reaches_turn 3 Scripted.session_start "hi"
           (fst (turn 3 Scripted.session_start "hi"))
           Scripted.session_after_hi).
  - discriminate.
  - vm_compute. reflexivity.
  - apply reaches_refl.
Defined.

Lemma engine_state_is_threaded_witness :
  let r := generate 3 Scripted.letters "zz" in
  threaded Scripted.letters (decoded (fst r)) /\
  Scripted.mkS 100 5 [] = after_passes Scripted.letters (decoded (fst r)).
Proof.
  intros r.
  assert (Hr : snd r = Returned "abc" STOP_MAXLEN (Scripted.mkS 100 5 []))
    by (vm_compute; reflexivity).
  destruct (engine_state_is_threaded 3 Scripted.letters "zz"
              (fst r) (snd r) (surjective_pairing r)) as (H1 & H2).
  split; [exact H1 | exact (H2 _ _ _ Hr)].
Defined.

Lemma response_and_printed_text_witness :
  let r := generate 8 (Scripted.fresh 100 [97; 0; 98; 257]) "x" in
  let resp := String "a" (String NUL "b") in
  snd r = Returned resp STOP_EOG (Scripted.mkS 100 4 []) /\
  emitted (fst r) = ["a"%string; String NUL ""; "b"%string] /\
  resp = concat_pieces (emitted (fst r)) /\
  stdout_of (fst r)
  = (concat_pieces (map c_str (emitted (fst r))) ++ "")%string /\
  concat_pieces (map c_str (emitted (fst r))) = "ab"%string.
Proof.
  intros r resp.
  assert (Hr : snd r = Returned resp STOP_EOG (Scripted.mkS 100 4 []))
    by (vm_compute; reflexivity).
  split; [exact Hr|]. split; [vm_compute; reflexivity|].
  destruct (response_and_printed_text 8 (Scripted.fresh 100 [97; 0; 98; 257])
              "x" (fst r) (snd r) (surjective_pairing r)) as (_ & _ & H).
  destruct (H _ _ _ Hr) as (H1 & H2 & _).
  split; [exact H1|]. split; [exact H2|]. vm_compute. reflexivity.
Defined.

Lemma stderr_only_at_the_end_witness :
  let r := generate 10 (Scripted.fresh 3 (map Scripted.tok ["a"; "b"]%char))
                    "zz" in
  snd r = Exited 0 /\
  stderr_of (fst r) = [("context size exceeded" ++ LF)%string].
Proof.
  intros r.
  assert (Hr : snd r = Exited 0) by (vm_compute; reflexivity).
  split; [exact Hr|].
  destruct (stderr_only_at_the_end 10
              (Scripted.fresh 3 (map Scripted.tok ["a"; "b"]%char)) "zz"
              (fst r) (snd r) (surjective_pairing r)) as (H & _).
  rewrite Hr in H. apply H.
Defined.

Lemma empty_line_is_end_of_input_witness :
  let r := chat_loop 3 (["hi"%string] ++ ""%string :: ["yo"%string])
                     Scripted.session_start in
  r = chat_loop 3 ["hi"%string] Scripted.session_start /\
  (snd r = ProcExit 0 \/
   exists pre user rest s1 tr1,
     ["hi"%string] = pre ++ user :: rest /\ user <> ""%string /\
     reaches 3 Scripted.session_start s1 /\
     turn 3 s1 user = (tr1, inr (snd r))).
Proof.
  intros r.
  destruct (empty_line_is_end_of_input 3 ["hi"%string] ["yo"%string]
              Scripted.session_start) as (_ & _ & H1 & H2).
  split; [exact H1|].
  exact (H2 (fst r) (snd r) (surjective_pairing r)).
Defined.

Lemma formatted_only_grows_witness :
  (exists full,
     chat_render (messages Scripted.session_start
                  ++ [mkMsg "user" (c_str "hi")]) true = Some full /\
     List.length (formatted Scripted.session_after_hi)
     = Nat.max (List.length (formatted Scripted.session_start))
               (String.length full) /\
     firstn (String.length full) (formatted Scripted.session_after_hi)
     = list_ascii_of_string full) /\
  (List.length (formatted Scripted.forgetful_start)
   <= List.length (formatted Scripted.forgetful_after_yo))%nat.
Proof.
  split.
  - destruct (formatted_only_grows 3 Scripted.session_start) as (H & _).
    destruct (H "hi"%string (fst (turn 3 Scripted.session_start "hi"))
                Scripted.session_after_hi)
      as (full & Hr & _ & Hmax & Hfront).
    + vm_compute. reflexivity.
    + exists full. split; [exact Hr|]. split; [|exact Hfront].
      apply Hmax. vm_compute. reflexivity.
  - destruct (formatted_only_grows (T := Scripted.forgetful_template) 3
                Scripted.forgetful_start) as (_ & H).
    apply H.
    + vm_compute. reflexivity.
    + intros msgs add_ass text. cbn. unfold Scripted.forgetful_render.
      destruct (List.length msgs) as [|[|[|[|[|n]]]]];
        intros [= <-]; vm_compute; reflexivity.
    + apply (reaches_turn (T := Scripted.forgetful_template) 3
               Scripted.forgetful_start "hi"
               (fst (turn (T := Scripted.forgetful_template) 3
                          Scripted.forgetful_start "hi"))
               Scripted.forgetful_after_hi).
      * discriminate.
      * vm_compute. reflexivity.
      * apply (reaches_turn (T := Scripted.forgetful_template) 3
                 Scripted.forgetful_after_hi "yo"
                 (fst (turn (T := Scripted.forgetful_template) 3
                            Scripted.forgetful_after_hi "yo"))
                 Scripted.forgetful_after_yo).
        -- discriminate.
        -- vm_compute. reflexivity.
        -- apply reaches_refl.
Defined.

Lemma history_stops_at_nul_witness :
  (exists prompt resp why kept_line kept_resp rest_line rest_resp,
     snd (generate 3 (engine Scripted.session_start) prompt)
     = Returned resp why (engine Scripted.session_after_hi) /\
     messages Scripted.session_after_hi
     = messages Scripted.session_start
         ++ [mkMsg "user" kept_line; mkMsg "assistant" kept_resp] /\
     "hi"%string = (kept_line ++ rest_line)%string /\
     resp = (kept_resp ++ rest_resp)%string /\
     ~ In NUL (list_ascii_of_string kept_line) /\
     ~ In NUL (list_ascii_of_string kept_resp) /\
     (rest_line = ""%string \/ exists r, rest_line = String NUL r) /\
     (rest_resp = ""%string \/ exists r, rest_resp = String NUL r) /\
     (~ In NUL (list_ascii_of_string "hi") -> kept_line = "hi"%string)) /\
  Forall (fun m => ~ In NUL (list_ascii_of_string (content m)))
         (messages Scripted.session_start).
Proof.
  destruct (history_stops_at_nul 3 (engine Scripted.session_start)
              Scripted.session_start (reaches_refl 3 _)) as (H1 & H2).
  split; [|exact H2].
  apply (H1 "hi"%string (fst (turn 3 Scripted.session_start "hi"))).
  vm_compute. reflexivity.
Defined.

Lemma how_main_ends_witness :
  let r := main (H := ScriptedHost.scripted_host) "chat"
                ["-m"; "ab"; "-n"; "3"] ["hi"; ""] in
  snd r = ProcExit 0 /\
  started (H := ScriptedHost.scripted_host) "chat"
          ["-m"; "ab"; "-n"; "3"].
Proof.
  intros r.
  assert (Hr : snd r = ProcExit 0) by (vm_compute; reflexivity).
  split; [exact Hr|].
  destruct (how_main_ends (H := ScriptedHost.scripted_host) "chat"
              ["-m"; "ab"; "-n"; "3"] ["hi"; ""]
              (fst r) (snd r) (surjective_pairing r)) as (_ & _ & H & _).
  exact (H Hr).
Defined.

Lemma engine_failure_is_fatal_witness :
  let r := generate 3 (Scripted.mkS 100 5 [97]) "" in
  snd r = Aborted (AbortDecode (-1)) /\
  -1 <> 0 /\
  exists tr0 c0 b,
    fst r
    = tr0 ++ [EvDecode c0 b;
              abort_message 140 ("failed to decode, ret = "
                                 ++ decimal (-1) ++ LF)%string] /\
    fst (llama_decode c0 b) = -1.
Proof.
  intros r.
  assert (Hr : snd r = Aborted (AbortDecode (-1)))
    by (vm_compute; reflexivity).
  split; [exact Hr|].
  destruct (engine_failure_is_fatal 3 (Scripted.mkS 100 5 [97]) ""
              (fst r) (snd r) (surjective_pairing r)) as (H1 & _).
  exact (H1 (-1) Hr).
Defined.

Lemma context_test_is_on_ints_witness :
  let c := Scripted.fresh (2 ^ 32 - 1) [97; 257] in
  generate 8 c "x"
  = ([EvTokenize "x" 0 true true; EvTokenize "x" 2 true true;
      EvStdout (ESC ++ "[0m" ++ LF);
      EvStderr ("context size exceeded" ++ LF)],
     Exited 0) /\
  decoded (fst (generate 8 c "x")) = [].
Proof.
  intros c. split; [vm_compute; reflexivity|].
  destruct (context_test_is_on_ints 8 c "x") as (_ & H).
  destruct H as (_ & H); [vm_compute; split; [discriminate | reflexivity]
                         | vm_compute; discriminate |].
  apply H. vm_compute. reflexivity.
Defined.

Lemma tokenizer_failure_is_fatal_witness :
  generate (E := ScriptedHost.refusing_engine) 3 Scripted.letters "a#"
  = ([EvTokenize "a#" 0 true true; EvTokenize "a#" 1 true true;
      EvStderr ("simple-chat.cpp:118: failed to tokenize the prompt"
                ++ LF ++ LF)],
     Aborted AbortTokenize) /\
  generate (E := ScriptedHost.overflowing_engine) 3 Scripted.letters "a!"
  = ([EvTokenize "a!" 0 true true], Aborted AbortVectorLength).
Proof.
  split.
  - set (r := generate (E := ScriptedHost.refusing_engine) 3
                       Scripted.letters "a#").
    destruct (tokenizer_failure_is_fatal (E := ScriptedHost.refusing_engine)
                3 Scripted.letters "a#" (fst r) (snd r)
                (surjective_pairing r)) as (_ & _ & _ & Hiff & Htr).
    assert (Ho : snd r = Aborted AbortTokenize).
    { apply Hiff. split; [vm_compute; discriminate | reflexivity]. }
    rewrite (surjective_pairing r), Ho, (Htr Ho). reflexivity.
  - set (r := generate (E := ScriptedHost.overflowing_engine) 3
                       Scripted.letters "a!").
    destruct (tokenizer_failure_is_fatal
                (E := ScriptedHost.overflowing_engine)
                3 Scripted.letters "a!" (fst r) (snd r)
                (surjective_pairing r)) as (_ & Htr & Hmin & _).
    assert (Ho : snd r = Aborted AbortVectorLength)
      by (apply Hmin; reflexivity).
    rewrite (surjective_pairing r), Ho, (Htr Ho). reflexivity.
Defined.

(** A line the template refuses, and a response it refuses. *)
Lemma template_failure_is_fatal_witness :
  turn 3 Scripted.session_start "#" = (template_failure, inr (ProcExit 1)) /\
  chat_loop 3 ["#"%string; "hi"%string] Scripted.session_start
  = ([EvStdout (ESC ++ "[32m> " ++ ESC ++ "[0m");
      EvStderr ("failed to apply the chat template" ++ LF)],
     ProcExit 1) /\
  exists tr,
    turn 3 (init_session (Scripted.fresh 100 [Scripted.tok "#"])) "hi"
    = ((EvStdout (ESC ++ "[33m") :: tr)
         ++ [EvStdout (LF ++ ESC ++ "[0m")] ++ template_failure,
       inr (ProcExit 1)).
Proof.
  destruct (template_failure_is_fatal 3 Scripted.session_start "#"
              ["hi"%string]) as (_ & H1 & _ & H3).
  assert (Ht : turn 3 Scripted.session_start "#"
               = (template_failure, inr (ProcExit 1))).
  { apply H1; [reflexivity|]. vm_compute. reflexivity. }
  split; [exact Ht|].
  split; [apply (H3 template_failure (ProcExit 1));
          [discriminate | exact Ht]|].
  set (s := init_session (Scripted.fresh 100 [Scripted.tok "#"])).
  destruct (template_failure_is_fatal 3 s "hi" []) as (_ & _ & H2 & _).
  exists (fst (generate 3 (engine s) "<user>hi;<assistant>")).
  apply (H2 [mkMsg "user" "hi"] 20 (formatted Scripted.session_after_hi)
            _ "#"%string STOP_EOG (Scripted.mkS 100 21 [])).
  - vm_compute. reflexivity.
  - vm_compute. discriminate.
  - vm_compute. discriminate.
  - vm_compute. reflexivity.
  - vm_compute. reflexivity.
Defined.

